(** * A solar-projects database and its CSV ingestion (src/utils.py),
      and the two scripts src/sqlite.py and src/postgres.py

    A shallow embedding of [ingest_electrical_csv] and of its helpers
    [_safe_float] and [_safe_str], of [create_db], [add_project] and
    [add_system], and of the two scripts, with their properties stated
    and proved over it.

    Conventions of the model:
    - Python strings are [string]s of ASCII characters (code points below
      128); whitespace is what [str.isspace] accepts in that range.  The
      literals of the scripts that hold other characters are kept as
      their UTF-8 bytes and are only passed on.
    - A Python [float] is kept symbolically as the decimal it was read from
      ([FFinite]), or as an infinity or a NaN: binary rounding is outside
      the model.
    - Exceptions are values of [exn]; a computation that may raise returns
      a [result].
    - pandas, sqlite3 and psycopg2 are libraries the source calls; they
      are modelled by what their documentation says of the calls made
      here.  A table is taken to have the columns its CREATE TABLE
      statement in the source gives it. *)

From Stdlib Require Import ZArith NArith String Ascii Lia Bool.
From Stdlib Require DecimalString DecimalPos.
From stdpp Require Import base option list strings gmap.

(** stdpp freezes string append under [simpl]; the proofs below compute
    with it. *)
#[global] Arguments String.append !s1 s2 / : simpl nomatch.

(* ================================================================== *)
(** * Python strings *)
(* ================================================================== *)

Module PyString.

(** [str.isspace] on ASCII: TAB..CR, FS..US and the space. *)
Definition is_space (c : ascii) : bool :=
  let n := nat_of_ascii c in
  (((9 <=? n) && (n <=? 13)) || ((28 <=? n) && (n <=? 32)))%nat.

Definition is_digit (c : ascii) : bool :=
  let n := nat_of_ascii c in ((48 <=? n) && (n <=? 57))%nat.

Definition digit_val (c : ascii) : N := N.of_nat (nat_of_ascii c - 48).

Definition lower_char (c : ascii) : ascii :=
  let n := nat_of_ascii c in
  if ((65 <=? n) && (n <=? 90))%nat then ascii_of_nat (n + 32) else c.

(** [s.lower()] *)
Fixpoint lower (s : string) : string :=
  match s with
  | EmptyString => EmptyString
  | String c r => String (lower_char c) (lower r)
  end.

Fixpoint lstrip (s : string) : string :=
  match s with
  | EmptyString => EmptyString
  | String c r => if is_space c then lstrip r else s
  end.

Fixpoint rstrip (s : string) : string :=
  match s with
  | EmptyString => EmptyString
  | String c r =>
      match rstrip r with
      | EmptyString => if is_space c then EmptyString else String c EmptyString
      | r' => String c r'
      end
  end.

(** [s.strip()] *)
Definition strip (s : string) : string := rstrip (lstrip s).

(** [s.replace(old, new)] for one-character [old] and [new]. *)
Fixpoint replace (old new : ascii) (s : string) : string :=
  match s with
  | EmptyString => EmptyString
  | String c r =>
      String (if Ascii.eqb c old then new else c) (replace old new r)
  end.

Fixpoint all_space (s : string) : bool :=
  match s with
  | EmptyString => true
  | String c r => is_space c && all_space r
  end.

Fixpoint all_digits (s : string) : bool :=
  match s with
  | EmptyString => true
  | String c r => is_digit c && all_digits r
  end.

(** [str(z)] for an integer. *)
Definition of_Z (z : Z) : string :=
  DecimalString.NilZero.string_of_int (Z.to_int z).

End PyString.

(* ================================================================== *)
(** * Values, exceptions, results *)
(* ================================================================== *)

(** A Python float, symbolically: [FFinite neg m e] is the float read from
    the decimal [(-1)^neg * m * 10^e]. *)
Inductive pyfloat : Type :=
| FFinite (neg : bool) (m : N) (e : Z)
| FInf (neg : bool)
| FNan.

(** The objects a DataFrame cell of [read_csv] can hold, and [None]. *)
Inductive pyval : Type :=
| PyNone
| PyBool (b : bool)
| PyInt (z : Z)
| PyFloat (f : pyfloat)
| PyStr (s : string).

Inductive exn : Type :=
| ImportError
| FileNotFoundError (csv_path : string)
| EmptyDataError
| ValueError_chunksize
| ValueError_float (s : string)
| ValueError_timestamp (csv_path : string) (columns : list string)
| RuntimeError (e : string).

Inductive result (A : Type) : Type :=
| Return (a : A)
| Raise (e : exn).
Arguments Return {A} a.
Arguments Raise {A} e.

Definition bind {A B} (m : result A) (k : A -> result B) : result B :=
  match m with
  | Return a => k a
  | Raise e => Raise e
  end.

(** [try: body  except Exception: handler] *)
Definition try_except {A} (body : result A) (handler : exn -> result A)
  : result A :=
  match body with
  | Return a => Return a
  | Raise e => handler e
  end.

Notation "'do' x <- m ; k" := (bind m (fun x => k))
  (at level 10, x name, m at level 100, k at level 200).

(* ================================================================== *)
(** * The builtin [float(s)] on strings *)
(* ================================================================== *)

Module PyFloat.
Import PyString.

(** Underscores are digit separators: each must stand between two
    digits.  Returns the string without them, or [None]. *)
Fixpoint remove_underscores (prev : option ascii) (s : string)
  : option string :=
  let prev_digit := from_option is_digit false prev in
  let prev_under := from_option (Ascii.eqb "_") false prev in
  match s with
  | EmptyString => if prev_under then None else Some EmptyString
  | String c r =>
      if Ascii.eqb c "_" then
        if prev_digit then remove_underscores (Some c) r else None
      else if prev_under && negb (is_digit c) then None
      else String c <$> remove_underscores (Some c) r
  end.

Definition parse_sign (s : string) : bool * string :=
  match s with
  | String c r =>
      if Ascii.eqb c "-" then (true, r)
      else if Ascii.eqb c "+" then (false, r)
      else (false, s)
  | EmptyString => (false, s)
  end.

(** Reads the longest prefix of digits, continuing the number [acc]:
    the number read, how many digits, and the rest. *)
Fixpoint scan_digits (s : string) (acc : N) : N * nat * string :=
  match s with
  | String c r =>
      if is_digit c then
        let '(v, n, rest) := scan_digits r (acc * 10 + digit_val c)%N in
        (v, S n, rest)
      else (acc, 0, s)
  | EmptyString => (acc, 0, s)
  end.

Definition is_e (c : ascii) : bool := Ascii.eqb c "e" || Ascii.eqb c "E".

(** [sign? (digits ("." digits?)? | "." digits) ([eE] sign? digits)?],
    the whole string. *)
Definition parse_number (s : string) : option pyfloat :=
  let '(neg, s1) := parse_sign s in
  let '(ip, n1, s2) := scan_digits s1 0%N in
  let '(m, n2, s3) :=
    match s2 with
    | String c r => if Ascii.eqb c "." then scan_digits r ip else (ip, 0, s2)
    | EmptyString => (ip, 0, s2)
    end in
  if (n1 + n2 =? 0)%nat then None
  else
    match s3 with
    | EmptyString => Some (FFinite neg m (- Z.of_nat n2))
    | String c r =>
        if is_e c then
          let '(eneg, r1) := parse_sign r in
          let '(ev, ne, r2) := scan_digits r1 0%N in
          if (ne =? 0)%nat then None
          else
            match r2 with
            | EmptyString =>
                let ex := if eneg then (- Z.of_N ev)%Z else Z.of_N ev in
                Some (FFinite neg m (ex - Z.of_nat n2))
            | _ => None
            end
        else None
    end.

(** [sign? ("inf" | "infinity" | "nan")], case-insensitive. *)
Definition parse_inf_or_nan (s : string) : option pyfloat :=
  let '(neg, r) := parse_sign s in
  let l := lower r in
  if String.eqb l "inf" || String.eqb l "infinity" then Some (FInf neg)
  else if String.eqb l "nan" then Some FNan
  else None.

(** [float(s)]: raises [ValueError] when [s] is not a number. *)
Definition float (s : string) : result pyfloat :=
  let t := strip s in
  match remove_underscores None t with
  | None => Raise (ValueError_float s)
  | Some u =>
      match parse_number u with
      | Some f => Return f
      | None =>
          match parse_inf_or_nan u with
          | Some f => Return f
          | None => Raise (ValueError_float s)
          end
      end
  end.

End PyFloat.

(* ================================================================== *)
(** * Containers: Python dicts in insertion order, DataFrames *)
(* ================================================================== *)

(** [d[k] = v] on a dict kept in insertion order. *)
Fixpoint dict_set {V} (k : string) (v : V) (d : list (string * V))
  : list (string * V) :=
  match d with
  | [] => [(k, v)]
  | (k', v') :: r =>
      if String.eqb k' k then (k, v) :: r else (k', v') :: dict_set k v r
  end.

(** A DataFrame as [read_csv] yields it: the column labels and the rows,
    each row holding one cell per label. *)
Record DataFrame : Type := mkDataFrame {
  df_columns : list string;
  df_rows : list (list pyval)
}.

Fixpoint index_of (c : string) (l : list string) : option nat :=
  match l with
  | [] => None
  | x :: r => if String.eqb x c then Some 0 else S <$> index_of c r
  end.

(** [chunk_df[c]]: the column labelled [c]; a row too short for it reads
    as NaN, the way [read_csv] pads it. *)
Definition getcol (df : DataFrame) (c : string) : list pyval :=
  match index_of c (df_columns df) with
  | Some i => (fun row => default (PyFloat FNan) (row !! i)) <$> df_rows df
  | None => []
  end.

(** A DataFrame built column by column ([df_to_insert]): the length of
    its index and the columns by label. *)
Record Frame : Type := mkFrame {
  f_len : nat;
  f_cols : gmap string (list pyval)
}.

(** [pd.DataFrame()] *)
Definition frame_empty : Frame := mkFrame 0 ∅.

(** [df[name] = series]: an empty frame takes the index of the series. *)
Definition frame_set (df : Frame) (name : string) (col : list pyval) : Frame :=
  mkFrame (if bool_decide (f_cols df = ∅) then length col else f_len df)
          (<[name := col]> (f_cols df)).

(** [df[name] = v] for a scalar [v]. *)
Definition frame_set_scalar (df : Frame) (name : string) (v : pyval) : Frame :=
  mkFrame (f_len df) (<[name := replicate (f_len df) v]> (f_cols df)).

Definition frame_get (df : Frame) (name : string) : list pyval :=
  default [] (f_cols df !! name).

Fixpoint keep_rows {A} (keep : list bool) (col : list A) : list A :=
  match keep, col with
  | true :: ks, x :: xs => x :: keep_rows ks xs
  | false :: ks, _ :: xs => keep_rows ks xs
  | _, _ => []
  end.

(** The rows of [df] whose flag in [keep] is set. *)
Definition frame_filter (keep : list bool) (df : Frame) : Frame :=
  mkFrame (length (filter (fun b => b = true) keep))
          (keep_rows keep <$> f_cols df).

(** A timestamp that is not NaT. *)
Definition notna (t : option string) : bool :=
  match t with Some _ => true | None => false end.

(** [row[name]] for the [i]-th row of [df.iterrows()]. *)
Definition row_get (df : Frame) (i : nat) (name : string) : pyval :=
  default PyNone (frame_get df name !! i).

(** The file at [csv_path] as pandas parses it. *)
Record csv_file : Type := mkCsv {
  csv_header : list string;
  csv_rows : list (list pyval)
}.

Fixpoint chunks_fuel {A} (fuel n : nat) (l : list A) : list (list A) :=
  match fuel with
  | 0 => []
  | S k =>
      match l with
      | [] => []
      | _ => take n l :: chunks_fuel k n (drop n l)
      end
  end.

Definition chunks_of {A} (n : nat) (l : list A) : list (list A) :=
  chunks_fuel (length l) n l.

(** [pd.read_csv(csv_path, chunksize=chunk_size, iterator=True)]: the
    successive DataFrames of at most [chunk_size] rows; a file with a
    header and no row yields one empty DataFrame. *)
Definition read_csv (f : csv_file) (chunksize : Z) : result (list DataFrame) :=
  if (chunksize <? 1)%Z then Raise ValueError_chunksize
  else
    match csv_header f with
    | [] => Raise EmptyDataError
    | header =>
        Return
          (match csv_rows f with
           | [] => [mkDataFrame header []]
           | rows => mkDataFrame header <$> chunks_of (Z.to_nat chunksize) rows
           end)
    end.

(* ================================================================== *)
(** * The database *)
(* ================================================================== *)

(** One row of [electrical_data] as bound by the INSERT statement. *)
Record reading : Type := mkReading {
  r_system_id : Z;
  r_timestamp : pyval;
  r_power_kw : option pyfloat;
  r_voltage_v : option pyfloat;
  r_current_a : option pyfloat;
  r_energy_kwh : option pyfloat;
  r_status : option string
}.

Inductive conn_state : Type := NotConnected | Open | Closed.

Inductive db_call : Type :=
| ExecuteMany (n : nat)
| Commit
| Rollback
| Close.

(** The table [electrical_data] behind one connection: the committed
    rows, the rows of the open transaction, the state of the connection
    and the calls made on it, oldest first. *)
Record database : Type := mkDatabase {
  committed : list reading;
  pending : list reading;
  connection : conn_state;
  calls : list db_call
}.

(** What the storage does with one chunk's [executemany] and [commit]. *)
Inductive outcome : Type :=
| Stored
| InsertFailure (k : nat) (e : string)
| CommitFailure (e : string).

Inductive message : Type :=
| MsgDropped (n : nat)
| MsgInserted (n total : nat)
| MsgDone (total : nat).

(** What the routine finds around it. *)
Record world : Type := mkWorld {
  w_pd : bool;
  w_files : string -> option csv_file;
  w_tables : string -> list reading;
  w_storage : nat -> list reading -> outcome
}.

Record state : Type := mkState {
  db : database;
  total_inserted : nat;
  stdout : list message
}.

Definition print (m : message) (st : state) : state :=
  mkState (db st) (total_inserted st) (stdout st ++ [m]).

Definition with_db (f : database -> database) (st : state) : state :=
  mkState (f (db st)) (total_inserted st) (stdout st).

Definition get_connection (rows : list reading) : database :=
  mkDatabase rows [] Open [].

Definition executemany_ok (rows : list reading) (d : database) : database :=
  mkDatabase (committed d) (pending d ++ rows) (connection d)
             (calls d ++ [ExecuteMany (length rows)]).

Definition executemany_fail (k : nat) (rows : list reading) (d : database)
  : database :=
  mkDatabase (committed d) (pending d ++ take k rows) (connection d)
             (calls d ++ [ExecuteMany (length rows)]).

Definition commit (d : database) : database :=
  mkDatabase (committed d ++ pending d) [] (connection d) (calls d ++ [Commit]).

Definition commit_fail (d : database) : database :=
  mkDatabase (committed d) (pending d) (connection d) (calls d ++ [Commit]).

Definition rollback (d : database) : database :=
  mkDatabase (committed d) [] (connection d) (calls d ++ [Rollback]).

Definition close (d : database) : database :=
  mkDatabase (committed d) [] Closed (calls d ++ [Close]).

(* ================================================================== *)
(** * Shapes of text the specification speaks of *)
(* ================================================================== *)

Module Shape.
Import PyString.

Definition first_char (s : string) : option ascii :=
  match s with
  | EmptyString => None
  | String c _ => Some c
  end.

Fixpoint last_char (s : string) : option ascii :=
  match s with
  | EmptyString => None
  | String c EmptyString => Some c
  | String _ r => last_char r
  end.

(** No whitespace at either end. *)
Definition trimmed (s : string) : bool :=
  negb (from_option is_space false (first_char s)) &&
  negb (from_option is_space false (last_char s)).

(** [t] is [s] without the whitespace around it. *)
Definition trim_of (s t : string) : Prop :=
  exists ws1 ws2,
    all_space ws1 = true /\ all_space ws2 = true /\
    s = ws1 +:+ t +:+ ws2 /\ trimmed t = true.

Fixpoint skip_digits (s : string) : nat * string :=
  match s with
  | String c r =>
      if is_digit c then let '(n, rest) := skip_digits r in (S n, rest)
      else (0, s)
  | EmptyString => (0, s)
  end.

Definition is_sep (c : ascii) : bool := Ascii.eqb c "." || Ascii.eqb c ",".

(** The regular expression [^\s*-?\d+([.,]\d+)?\s*$]. *)
Definition decimal_shape (s : string) : bool :=
  let s1 := lstrip s in
  let s2 := match s1 with
            | String c r => if Ascii.eqb c "-" then r else s1
            | EmptyString => s1
            end in
  let '(n1, s3) := skip_digits s2 in
  (0 <? n1)%nat &&
  match s3 with
  | EmptyString => true
  | String c r =>
      if is_sep c then
        let '(n2, s4) := skip_digits r in (0 <? n2)%nat && all_space s4
      else all_space s3
  end.

Fixpoint forall_chars (p : ascii -> bool) (s : string) : bool :=
  match s with
  | EmptyString => true
  | String c r => p c && forall_chars p r
  end.

Fixpoint contains (c : ascii) (s : string) : bool :=
  match s with
  | EmptyString => false
  | String c' r => Ascii.eqb c' c || contains c r
  end.

(** The number written by the digits of [s], after [acc]. *)
Fixpoint value_digits (acc : N) (s : string) : N :=
  match s with
  | EmptyString => acc
  | String c r =>
      value_digits (if is_digit c then acc * 10 + digit_val c else acc)%N r
  end.

Fixpoint count_digits (s : string) : nat :=
  match s with
  | EmptyString => 0
  | String c r => (if is_digit c then 1 else 0) + count_digits r
  end.

Fixpoint after_sep (s : string) : string :=
  match s with
  | EmptyString => EmptyString
  | String c r => if is_sep c then r else after_sep r
  end.

(** The real number a text of decimal shape denotes, its comma read as
    a period: sign, all digits, and one power of ten down for each
    digit behind the separator. *)
Definition decimal_value (s : string) : pyfloat :=
  FFinite (contains "-" s) (value_digits 0 s)
          (- Z.of_nat (count_digits (after_sep s))).

(** The text between the whitespace of a decimal shape: the sign, the
    integer digits, and the separator with the fraction digits if any. *)
Definition sign_text (neg : bool) : string := if neg then "-" else "".

Definition fraction_ok (fr : string) : Prop :=
  fr = "" \/
  exists c d2, fr = String c d2 /\ is_sep c = true /\
               all_digits d2 = true /\ d2 <> "".

(** The fraction with its separator read as a period. *)
Definition period_fraction (fr : string) : string :=
  match fr with
  | EmptyString => EmptyString
  | String _ d2 => String "." d2
  end.

End Shape.

(* ================================================================== *)
(** * Column mapping *)
(* ================================================================== *)

Definition targets : list string :=
  ["timestamp"; "power_kw"; "voltage_v"; "current_a"; "energy_kwh"; "status"].

Definition optional_targets : list string :=
  ["power_kw"; "voltage_v"; "current_a"; "energy_kwh"; "status"].

Definition default_map : gmap string string :=
  list_to_map
    [ ("timestamp", "timestamp");
      ("time", "timestamp");
      ("datetime", "timestamp");
      ("power_kw", "power_kw");
      ("power_kw_avg", "power_kw");
      ("power", "power_kw");
      ("power_kW", "power_kw");
      ("voltage_v", "voltage_v");
      ("voltage", "voltage_v");
      ("current_a", "current_a");
      ("current", "current_a");
      ("energy_kwh", "energy_kwh");
      ("energy", "energy_kwh");
      ("status", "status") ].

(** [{**default_map, **col_mappings}] when [col_mappings] is given and
    not empty, [default_map] otherwise. *)
Definition combined_map (col_mappings : option (gmap string string))
  : gmap string string :=
  match col_mappings with
  | Some m => if bool_decide (m = ∅) then default_map else m ∪ default_map
  | None => default_map
  end.

(** The target of one (already stripped) column label, if any. *)
Definition resolve (combined : gmap string string) (c : string)
  : option string :=
  let lower := PyString.lower c in
  match combined !! lower with
  | Some t => Some t
  | None => if bool_decide (lower ∈ targets) then Some lower else None
  end.

(** The dict [col_map_existing] after the loop over the columns. *)
Definition col_map_existing (combined : gmap string string)
  (columns : list string) : list (string * string) :=
  foldl (fun acc c =>
           match resolve combined c with
           | Some t => dict_set c t acc
           | None => acc
           end) [] columns.

(** [any(v == "timestamp" for v in col_map_existing.values())] *)
Definition has_timestamp (cme : list (string * string)) : bool :=
  existsb (fun kv => String.eqb kv.2 "timestamp") cme.

(** The resolution of a header as the specification words it: the
    override whose key is the header up to case, else the default alias
    that is, else the header itself when it names a target. *)
Definition lookup_nocase (m : gmap string string) (c : string)
  : option string :=
  (fun hit => hit.2.2) <$>
    list_find (fun kv => PyString.lower kv.1 = PyString.lower c) (map_to_list m).

Definition resolve_spec (col_mappings : gmap string string) (c : string)
  : option string :=
  match lookup_nocase col_mappings c with
  | Some t => Some t
  | None =>
      match lookup_nocase default_map c with
      | Some t => Some t
      | None =>
          if bool_decide (PyString.lower c ∈ targets)
          then Some (PyString.lower c) else None
      end
  end.

Definition storage_error (o : outcome) : option string :=
  match o with
  | Stored => None
  | InsertFailure _ e => Some e
  | CommitFailure e => Some e
  end.

(** The counts the messages about dropped rows add up to. *)
Definition dropped_total (out : list message) : nat :=
  sum_list (omap (fun m => match m with MsgDropped n => Some n | _ => None end)
                 out).

(* ================================================================== *)
(** * The tables and the functions that fill them (src/utils.py) *)
(* ================================================================== *)

Module Crud.

(** The rows of [projects], [systems], [meteo_data] and
    [electrical_data]. *)
Record project_row : Type := mkProject {
  p_id : Z;
  p_name : string;
  p_location : option string;
  p_description : option string;
  p_created_at : string
}.

Record system_row : Type := mkSystem {
  s_id : Z;
  s_project_id : Z;
  s_name : string;
  s_capacity_kw : option pyfloat;
  s_inverter_type : option string;
  s_notes : option string;
  s_created_at : string
}.

Record meteo_row : Type := mkMeteo {
  m_id : Z;
  m_system_id : Z;
  m_timestamp : string;
  m_ghi : option pyfloat;
  m_dni : option pyfloat;
  m_dhi : option pyfloat;
  m_temp_c : option pyfloat;
  m_wind_m_s : option pyfloat;
  m_precip_mm : option pyfloat;
  m_source : option string;
  m_inserted_at : string
}.

Record electrical_row : Type := mkElectrical {
  e_id : Z;
  e_reading : reading;
  e_inserted_at : string
}.

(** A table whose key is [INTEGER PRIMARY KEY AUTOINCREMENT]: its rows,
    and the largest key ever given in it (its line of
    [sqlite_sequence]). *)
Record table (R : Type) : Type := mkTable {
  t_rows : list R;
  t_seq : Z
}.
Arguments mkTable {R} t_rows t_seq.
Arguments t_rows {R} t.
Arguments t_seq {R} t.

(** The database file: each table is there or not; the indexes by
    name. *)
Record database : Type := mkDb {
  projects : option (table project_row);
  systems : option (table system_row);
  meteo_data : option (table meteo_row);
  electrical_data : option (table electrical_row);
  indexes : list string
}.

Inductive sql_error : Type :=
| OperationalError (msg : string)
| IntegrityError (msg : string).

Inductive outcome (A : Type) : Type :=
| Done (a : A)
| Failed (e : sql_error).
Arguments Done {A} a.
Arguments Failed {A} e.

Definition max_key {R} (key : R -> Z) (rows : list R) : Z :=
  foldr (fun r m => Z.max (key r) m) 0%Z rows.

(** The largest key of a table: 2^63 - 1. *)
Definition max_rowid : Z := 9223372036854775807.

(** One more than the largest key the table ever held. *)
Definition next_rowid {R} (key : R -> Z) (t : table R) : Z :=
  (Z.max (t_seq t) (max_key key (t_rows t)) + 1)%Z.

(** The key AUTOINCREMENT gives the next row; the INSERT fails when the
    largest key has been used. *)
Definition new_rowid {R} (key : R -> Z) (t : table R) : outcome Z :=
  let k := next_rowid key t in
  if (k <=? max_rowid)%Z then Done k
  else Failed (OperationalError "database or disk is full").

Definition empty_table {R} : table R := mkTable [] 0.

(** [CREATE TABLE IF NOT EXISTS] *)
Definition create_table_if_not_exists {R} (t : option (table R))
  : option (table R) :=
  match t with
  | Some t => Some t
  | None => Some empty_table
  end.

(** [CREATE INDEX IF NOT EXISTS name] *)
Definition create_index_if_not_exists (name : string) (l : list string)
  : list string :=
  if bool_decide (name ∈ l) then l else l ++ [name].

Definition create_db (d : database) : database :=
  mkDb (create_table_if_not_exists (projects d))
       (create_table_if_not_exists (systems d))
       (create_table_if_not_exists (meteo_data d))
       (create_table_if_not_exists (electrical_data d))
       (create_index_if_not_exists "idx_elec_system_time"
          (create_index_if_not_exists "idx_meteo_system_time"
             (create_index_if_not_exists "idx_systems_project" (indexes d)))).

(** [add_project]: the database afterwards and the key returned; [now]
    is what [datetime('now')] gives for [created_at]. *)
Definition add_project (now : string) (d : database) (name : string)
  (location description : option string) : database * outcome Z :=
  match projects d with
  | None => (d, Failed (OperationalError "no such table: projects"))
  | Some t =>
      match new_rowid p_id t with
      | Failed e => (d, Failed e)
      | Done project_id =>
          let row := mkProject project_id name location description now in
          (mkDb (Some (mkTable (t_rows t ++ [row]) project_id))
                (systems d) (meteo_data d) (electrical_data d) (indexes d),
           Done project_id)
      end
  end.

(** [add_system]: with [PRAGMA foreign_keys = ON], the INSERT fails when
    [project_id] is the key of no project. *)
Definition add_system (now : string) (d : database) (project_id : Z)
  (name : string) (capacity_kw : option pyfloat)
  (inverter_type notes : option string) : database * outcome Z :=
  match systems d with
  | None => (d, Failed (OperationalError "no such table: systems"))
  | Some t =>
      match projects d with
      | None => (d, Failed (OperationalError "no such table: main.projects"))
      | Some p =>
          match new_rowid s_id t with
          | Failed e => (d, Failed e)
          | Done system_id =>
              if existsb (fun r => (p_id r =? project_id)%Z) (t_rows p) then
                let row := mkSystem system_id project_id name capacity_kw
                                    inverter_type notes now in
                (mkDb (projects d)
                      (Some (mkTable (t_rows t ++ [row]) system_id))
                      (meteo_data d) (electrical_data d) (indexes d),
                 Done system_id)
              else (d, Failed (IntegrityError "FOREIGN KEY constraint failed"))
          end
      end
  end.

(** Every system belongs to a project of the database. *)
Definition referential_integrity (d : database) : Prop :=
  forall ts s, systems d = Some ts -> s ∈ t_rows ts ->
    exists tp p, projects d = Some tp /\ p ∈ t_rows tp /\ p_id p = s_project_id s.

(** The table, once created, can still take [n] rows more. *)
Definition has_room {R} (key : R -> Z) (t : option (table R)) (n : Z) : Prop :=
  match t with
  | Some t => (next_rowid key t + n <= max_rowid + 1)%Z
  | None => (1 + n <= max_rowid + 1)%Z
  end.

(** The calls a program makes on one database file. *)
Inductive call : Type :=
| Create_db
| Add_project (now name : string) (location description : option string)
| Add_system (now : string) (project_id : Z) (name : string)
    (capacity_kw : option pyfloat) (inverter_type notes : option string).

Definition run_call (d : database) (c : call) : database :=
  match c with
  | Create_db => create_db d
  | Add_project now name location description =>
      fst (add_project now d name location description)
  | Add_system now project_id name capacity_kw inverter_type notes =>
      fst (add_system now d project_id name capacity_kw inverter_type notes)
  end.

Definition run_calls (d : database) (cs : list call) : database :=
  foldl run_call d cs.

(** A file that holds no table yet. *)
Definition new_file : database := mkDb None None None None [].

End Crud.

(* ================================================================== *)
(** * The script of src/sqlite.py *)
(* ================================================================== *)

Module Usuarios.

Record usuario : Type := mkUsuario {
  u_id : Z;
  u_nombre : string;
  u_edad : option Z;
  u_email : option string
}.

(** The table [usuarios]: its rows and the largest key ever given. *)
Record table : Type := mkTable {
  t_rows : list usuario;
  t_seq : Z
}.

Inductive sql_error : Type :=
| OperationalError (msg : string)
| IntegrityError (msg : string).

Inductive outcome (A : Type) : Type :=
| Done (a : A)
| Failed (e : sql_error).
Arguments Done {A} a.
Arguments Failed {A} e.

Definition max_rowid : Z := 9223372036854775807.

Definition next_rowid (t : table) : Z :=
  (Z.max (t_seq t) (foldr (fun r m => Z.max (u_id r) m) 0%Z (t_rows t)) + 1)%Z.

Definition email_taken (t : table) (email : string) : bool :=
  existsb (fun r => match u_email r with
                    | Some e => String.eqb e email
                    | None => false
                    end) (t_rows t).

(** [INSERT INTO usuarios (nombre, edad, email) VALUES (?, ?, ?)]: the
    key is AUTOINCREMENT, the email UNIQUE. *)
Definition insert (t : table) (nombre : string) (edad : Z) (email : string)
  : outcome table :=
  let id := next_rowid t in
  if negb (id <=? max_rowid)%Z
  then Failed (OperationalError "database or disk is full")
  else if email_taken t email
  then Failed (IntegrityError "UNIQUE constraint failed: usuarios.email")
  else Done (mkTable (t_rows t ++ [mkUsuario id nombre (Some edad) (Some email)]) id).

(** [CREATE TABLE IF NOT EXISTS usuarios]: the table afterwards. *)
Definition create_table_if_not_exists (file : option table) : table :=
  match file with
  | Some t => t
  | None => mkTable [] 0
  end.

(** The script: the table in the file afterwards ([None]: no table) and
    the rows it prints.  The table is created outside any transaction;
    the two INSERTs are in one, committed after the second, and lost
    when the script ends on an error before. *)
Definition script (file : option table) : option table * outcome (list usuario) :=
  let t := create_table_if_not_exists file in
  match insert t "Carlos" 25 "ccarlos@example.com" with
  | Failed e => (Some t, Failed e)
  | Done t1 =>
      match insert t1 "Ana" 30 "aana@example.com" with
      | Failed e => (Some t, Failed e)
      | Done t2 => (Some t2, Done (t_rows t2))
      end
  end.

End Usuarios.

(* ================================================================== *)
(** * The script of src/postgres.py *)
(* ================================================================== *)

Module Postgres.

(** A row of [projects2]. *)
Record project_row : Type := mkProject {
  p_id : Z;
  p_name : string;
  p_location : option string;
  p_description : option string;
  p_created_at : option string
}.

Inductive pg_error : Type :=
| UndefinedTable (relation : string)
| OtherError (msg : string).

Inductive outcome (A : Type) : Type :=
| Done (a : A)
| Failed (e : pg_error).
Arguments Done {A} a.
Arguments Failed {A} e.

Section Script.

(** The script creates [projects2] and then writes to and reads from
    [projects], a table it does not create: what such a table holds and
    how it answers is the server's.  The server is taken to accept the
    connections and the CREATE TABLE statement. *)
Variable relation : Type.
Variable insert_into : relation -> list (string * string * string) -> outcome relation.
Variable select_from : relation -> outcome (list string).

(** The database [solar_db2]: the two tables, each there or not. *)
Record database : Type := mkDb {
  projects2 : option (list project_row);
  projects : option relation
}.

Definition data : list (string * string * string) :=
  [("Parque Solar El Desierto", "La Guajira", "Proyecto solar fotovoltaico de 50 MW");
   ("Planta FV Campus", "Bogotá", "Sistema de 1.2 MW para demostración académica");
   ("Microred Caribe", "Cartagena", "Instalación experimental híbrida solar-diésel")].

Definition create_table (d : database) : database * list string :=
  (mkDb (match projects2 d with Some t => Some t | None => Some [] end)
        (projects d),
   ["✅ Tabla 'projects' creada o ya existente."]).

Definition insert_projects (d : database) : database * list string * outcome unit :=
  match projects d with
  | None => (d, [], Failed (UndefinedTable "projects"))
  | Some r =>
      match insert_into r data with
      | Failed e => (d, [], Failed e)
      | Done r' =>
          (mkDb (projects2 d) (Some r'), ["✅ Datos insertados correctamente."],
           Done tt)
      end
  end.

Definition get_projects (d : database) : list string * outcome unit :=
  match projects d with
  | None => ([], Failed (UndefinedTable "projects"))
  | Some r =>
      match select_from r with
      | Failed e => ([], Failed e)
      | Done lines => (lines, Done tt)
      end
  end.

(** The three calls at the end of the file: the database afterwards,
    the lines printed, and how the script ends. *)
Definition script (d : database) : database * list string * outcome unit :=
  let '(d1, out1) := create_table d in
  match insert_projects d1 with
  | (d2, out2, Failed e) => (d2, out1 ++ out2, Failed e)
  | (d2, out2, Done _) =>
      let '(out3, r) := get_projects d2 in
      (d2, out1 ++ out2 ++ out3, r)
  end.

End Script.

End Postgres.

(* ================================================================== *)
(** * Small files and worlds to run the routine on *)
(* ================================================================== *)

Module Demo.

(** Stand-ins for the two library functions the routine is generic in. *)
Definition repr (neg : bool) (m : N) (e : Z) : string :=
  (if neg then "-" else "") +:+ PyString.of_Z (Z.of_N m) +:+ "e" +:+
  PyString.of_Z e.

Definition to_datetime (col : list pyval) (x : pyval) : option string :=
  match x with
  | PyStr s => if (String.length s =? 19)%nat then Some s else None
  | _ => None
  end.

(** Headers [datetime,power,voltage], three rows, one with a bad date. *)
Definition three_rows : csv_file :=
  mkCsv ["datetime"; "power"; "voltage"]
    [ [PyStr "2024-01-01 00:00:00"; PyStr "1,5"; PyInt 230];
      [PyStr "not-a-date"; PyStr "2.5"; PyInt 231];
      [PyStr "2024-01-01 00:10:00"; PyStr "abc"; PyFloat FNan] ].

Definition five_rows : csv_file :=
  mkCsv ["time"; " Power "]
    [ [PyStr "2024-01-01 00:00:00"; PyFloat (FFinite false 10 (-1))];
      [PyStr "2024-01-01 00:10:00"; PyFloat (FFinite false 20 (-1))];
      [PyStr "2024-01-01 00:20:00"; PyFloat (FFinite false 30 (-1))];
      [PyStr "2024-01-01 00:30:00"; PyFloat (FFinite false 40 (-1))];
      [PyStr "2024-01-01 00:40:00"; PyFloat (FFinite false 50 (-1))] ].

(** The chunks of [five_rows] read two rows at a time. *)
Definition five_chunk0 : DataFrame :=
  mkDataFrame ["time"; " Power "]
    [ [PyStr "2024-01-01 00:00:00"; PyFloat (FFinite false 10 (-1))];
      [PyStr "2024-01-01 00:10:00"; PyFloat (FFinite false 20 (-1))] ].

Definition five_chunk1 : DataFrame :=
  mkDataFrame ["time"; " Power "]
    [ [PyStr "2024-01-01 00:20:00"; PyFloat (FFinite false 30 (-1))];
      [PyStr "2024-01-01 00:30:00"; PyFloat (FFinite false 40 (-1))] ].

Definition five_chunk2 : DataFrame :=
  mkDataFrame ["time"; " Power "]
    [ [PyStr "2024-01-01 00:40:00"; PyFloat (FFinite false 50 (-1))] ].

Definition no_time_axis : csv_file :=
  mkCsv ["Power (kW)"; "voltage"] [ [PyStr "1.5"; PyInt 230] ].

Definition potencia : csv_file :=
  mkCsv ["timestamp"; "Potencia"]
    [ [PyStr "2024-01-01 00:00:00"; PyStr "1.5"] ].

Definition always_stored : nat -> list reading -> outcome :=
  fun _ _ => Stored.

Definition second_fails : nat -> list reading -> outcome :=
  fun i _ => if (i =? 1)%nat then InsertFailure 1 "disk I/O error" else Stored.

Definition world_of (f : csv_file) (storage : nat -> list reading -> outcome)
  : world :=
  mkWorld true (fun path => if String.eqb path "data.csv" then Some f else None)
          (fun _ => []) storage.

End Demo.

(* ================================================================== *)
(** * The ingestion routine *)
(* ================================================================== *)

Section Ingestion.

(** [repr] of a finite float: the shortest decimal that reads back as
    the same float. *)
Variable repr_finite : bool -> N -> Z -> string.

(** [pd.to_datetime(col, errors="coerce")] followed by
    [strftime("%Y-%m-%d %H:%M:%S")], for one cell of the column [col]:
    [None] is NaT.  The column is an argument because pandas infers the
    format from it. *)
Variable to_datetime : list pyval -> pyval -> option string.

(** [str(x)] *)
Definition py_str (x : pyval) : string :=
  match x with
  | PyNone => "None"
  | PyBool true => "True"
  | PyBool false => "False"
  | PyInt z => PyString.of_Z z
  | PyFloat (FFinite neg m e) => repr_finite neg m e
  | PyFloat (FInf false) => "inf"
  | PyFloat (FInf true) => "-inf"
  | PyFloat FNan => "nan"
  | PyStr s => s
  end.

Definition is_sentinel (s : string) : bool :=
  String.eqb s "" ||
  let l := PyString.lower s in
  String.eqb l "nan" || String.eqb l "none" || String.eqb l "null".

Definition _safe_float (x : pyval) : result (option pyfloat) :=
  try_except
    (match x with
     | PyNone => Return None
     | PyFloat f => Return (Some f)
     | _ =>
         let s := PyString.strip (py_str x) in
         if is_sentinel s then Return None
         else
           let s := PyString.replace "," "." s in
           do f <- PyFloat.float s; Return (Some f)
     end)
    (fun _ => Return None).

Definition _safe_str (x : pyval) : option string :=
  match x with
  | PyNone => None
  | _ =>
      let s := PyString.strip (py_str x) in
      if String.eqb s "" then None else Some s
  end.

(** The tuple bound to the INSERT statement for row [i]. *)
Definition build_row (system_id : Z) (df : Frame) (i : nat) : result reading :=
  do power_kw <- _safe_float (row_get df i "power_kw");
  do voltage_v <- _safe_float (row_get df i "voltage_v");
  do current_a <- _safe_float (row_get df i "current_a");
  do energy_kwh <- _safe_float (row_get df i "energy_kwh");
  Return (mkReading system_id (row_get df i "timestamp")
            power_kw voltage_v current_a energy_kwh
            (_safe_str (row_get df i "status"))).

Fixpoint build_rows (system_id : Z) (df : Frame) (idxs : list nat)
  : result (list reading) :=
  match idxs with
  | [] => Return []
  | i :: r =>
      do x <- build_row system_id df i;
      do xs <- build_rows system_id df r;
      Return (x :: xs)
  end.

(** [df_to_insert] when the rows are built: the mapped columns, the
    rows with a NaT timestamp dropped, the timestamps as text, the
    optional columns that are missing set to [None].  Also the number of
    rows before the drop. *)
Definition df_to_insert (cme : list (string * string)) (chunk_df : DataFrame)
  : Frame * nat :=
  let df := foldl (fun df kv => frame_set df kv.2 (getcol chunk_df kv.1))
                  frame_empty cme in
  let col := frame_get df "timestamp" in
  let ts := to_datetime col <$> col in
  let n_before := f_len df in
  let df := frame_filter (notna <$> ts) df in
  let df := frame_set df "timestamp" (PyStr <$> omap id ts) in
  let df := foldl (fun df col =>
                     match f_cols df !! col with
                     | Some _ => df
                     | None => frame_set_scalar df col PyNone
                     end) df optional_targets in
  (df, n_before).

(** [chunk_df.columns = [c.strip() for c in chunk_df.columns]] *)
Definition strip_columns (chunk_df : DataFrame) : DataFrame :=
  mkDataFrame (PyString.strip <$> df_columns chunk_df) (df_rows chunk_df).

(** The body of the loop for the chunk number [idx]. *)
Definition process_chunk (w : world) (system_id : Z) (csv_path : string)
  (combined : gmap string string) (idx : nat) (chunk_df : DataFrame)
  (st : state) : state * result unit :=
  let chunk_df := strip_columns chunk_df in
  let cme := col_map_existing combined (df_columns chunk_df) in
  if negb (has_timestamp cme) then
    (st, Raise (ValueError_timestamp csv_path (df_columns chunk_df)))
  else
    let '(df, n_before) := df_to_insert cme chunk_df in
    let n_after := f_len df in
    let st := if (n_after <? n_before)%nat
              then print (MsgDropped (n_before - n_after)) st else st in
    match build_rows system_id df (seq 0 (f_len df)) with
    | Raise e => (st, Raise e)
    | Return rows =>
        match w_storage w idx rows with
        | Stored =>
            let st := with_db (executemany_ok rows) st in
            let st := with_db commit st in
            let total := total_inserted st + length rows in
            let st := mkState (db st) total (stdout st) in
            (print (MsgInserted (length rows) total) st, Return tt)
        | InsertFailure k e =>
            let st := with_db (executemany_fail k rows) st in
            let st := with_db rollback st in
            (st, Raise (RuntimeError e))
        | CommitFailure e =>
            let st := with_db (executemany_ok rows) st in
            let st := with_db commit_fail st in
            let st := with_db rollback st in
            (st, Raise (RuntimeError e))
        end
    end.

(** [for chunk_df in df_iter: ...] *)
Fixpoint for_chunks (w : world) (system_id : Z) (csv_path : string)
  (combined : gmap string string) (idx : nat) (df_iter : list DataFrame)
  (st : state) : state * result unit :=
  match df_iter with
  | [] => (st, Return tt)
  | chunk_df :: rest =>
      match process_chunk w system_id csv_path combined idx chunk_df st with
      | (st', Return _) =>
          for_chunks w system_id csv_path combined (S idx) rest st'
      | (st', Raise e) => (st', Raise e)
      end
  end.

Definition ingest_electrical_csv (w : world) (db_path : string)
  (system_id : Z) (csv_path : string) (timestamp_col : string)
  (col_mappings : option (gmap string string)) (chunk_size : Z)
  : state * result pyval :=
  let st0 := mkState (mkDatabase (w_tables w db_path) [] NotConnected []) 0 [] in
  if negb (w_pd w) then (st0, Raise ImportError)
  else
    match w_files w csv_path with
    | None => (st0, Raise (FileNotFoundError csv_path))
    | Some f =>
        let combined := combined_map col_mappings in
        match read_csv f chunk_size with
        | Raise e => (st0, Raise e)
        | Return df_iter =>
            let st := mkState (get_connection (w_tables w db_path)) 0 [] in
            match for_chunks w system_id csv_path combined 0 df_iter st with
            | (st, Raise e) => (st, Raise e)
            | (st, Return _) =>
                let st := with_db close st in
                (print (MsgDone (total_inserted st)) st, Return PyNone)
            end
        end
    end.


(** The frame a chunk is turned into, and its rows as bound to the
    INSERT statement. *)
Definition chunk_frame (combined : gmap string string) (chunk_df : DataFrame)
  : Frame :=
  let c := strip_columns chunk_df in
  (df_to_insert (col_map_existing combined (df_columns c)) c).1.

Definition chunk_rows (system_id : Z) (combined : gmap string string)
  (chunk_df : DataFrame) : list reading :=
  let df := chunk_frame combined chunk_df in
  match build_rows system_id df (seq 0 (f_len df)) with
  | Return rows => rows
  | Raise _ => []
  end.

(** The number of rows of a chunk before the drop, and the message about
    the rows dropped, when there are any. *)
Definition chunk_before (combined : gmap string string) (chunk_df : DataFrame)
  : nat :=
  let c := strip_columns chunk_df in
  (df_to_insert (col_map_existing combined (df_columns c)) c).2.

Definition note_dropped (combined : gmap string string) (chunk_df : DataFrame)
  (st : state) : state :=
  let n_after := f_len (chunk_frame combined chunk_df) in
  let n_before := chunk_before combined chunk_df in
  if (n_after <? n_before)%nat
  then print (MsgDropped (n_before - n_after)) st else st.

(** The chunk resolves a timestamp column. *)
Definition chunk_has_timestamp (combined : gmap string string)
  (chunk_df : DataFrame) : bool :=
  has_timestamp
    (col_map_existing combined (df_columns (strip_columns chunk_df))).

(** The header that ends up as the column [t]: the last one mapped to
    it. *)
Fixpoint source_of (t : string) (cme : list (string * string))
  : option string :=
  match cme with
  | [] => None
  | (src, t') :: r =>
      match source_of t r with
      | Some s => Some s
      | None => if String.eqb t' t then Some src else None
      end
  end.

(** The cells of the resolved timestamp column of a chunk, and how many
    of them fail to parse. *)
Definition timestamp_cells (combined : gmap string string)
  (chunk_df : DataFrame) : list pyval :=
  let c := strip_columns chunk_df in
  match source_of "timestamp" (col_map_existing combined (df_columns c)) with
  | Some src => getcol c src
  | None => []
  end.

Definition unparseable (combined : gmap string string) (chunk_df : DataFrame)
  : nat :=
  let col := timestamp_cells combined chunk_df in
  length (filter (fun t => notna t = false) (to_datetime col <$> col)).

(** The chunks [read_csv] yields for a file, and the rows of the file
    whose timestamp fails to parse, chunk by chunk. *)
Definition csv_chunks (f : csv_file) (chunk_size : Z) : list DataFrame :=
  match read_csv f chunk_size with
  | Return chunks => chunks
  | Raise _ => []
  end.

Definition file_unparseable (combined : gmap string string) (f : csv_file)
  (chunk_size : Z) : nat :=
  sum_list (unparseable combined <$> csv_chunks f chunk_size).

(** The numeric coercion as the specification words it: the absent
    value for an absent, empty or nan/none/null text, the number for a
    text of decimal shape, the absent value for any other. *)
Definition claimed_safe_float (x : pyval) : option pyfloat :=
  match x with
  | PyNone => None
  | _ =>
      let s := py_str x in
      if is_sentinel (PyString.strip s) then None
      else if Shape.decimal_shape s then Some (Shape.decimal_value s)
      else None
  end.

(** The value a computation returns, [d] if it raises. *)
Definition returned {A} (d : A) (r : result A) : A :=
  match r with
  | Return a => a
  | Raise _ => d
  end.

(** The cell of one row of the file that goes under the target [t]: the
    cell of the last header mapped to [t], [None] when no header is. *)
Definition row_cell (combined : gmap string string) (columns : list string)
  (t : string) (row : list pyval) : pyval :=
  let labels := PyString.strip <$> columns in
  match source_of t (col_map_existing combined labels) with
  | Some src =>
      match index_of src labels with
      | Some i => default (PyFloat FNan) (row !! i)
      | None => PyFloat FNan
      end
  | None => PyNone
  end.

(** The reading a row of a chunk is turned into, if its timestamp
    parses; [col] is the timestamp column of the chunk. *)
Definition row_reading (system_id : Z) (combined : gmap string string)
  (columns : list string) (col : list pyval) (row : list pyval)
  : option reading :=
  let cell t := row_cell combined columns t row in
  (fun iso =>
     mkReading system_id (PyStr iso)
       (returned None (_safe_float (cell "power_kw")))
       (returned None (_safe_float (cell "voltage_v")))
       (returned None (_safe_float (cell "current_a")))
       (returned None (_safe_float (cell "energy_kwh")))
       (_safe_str (cell "status")))
    <$> to_datetime col (cell "timestamp").

(** The proofs reason about these by their lemmas: [simpl] leaves them
    folded. *)
Arguments df_to_insert : simpl never.
Arguments process_chunk : simpl never.
Arguments chunk_frame : simpl never.
Arguments chunk_rows : simpl never.
Arguments chunk_before : simpl never.
Arguments note_dropped : simpl never.
Arguments chunk_has_timestamp : simpl never.
Arguments timestamp_cells : simpl never.
Arguments unparseable : simpl never.
Arguments row_cell : simpl never.
Arguments row_reading : simpl never.

(* ---------------------------------------------------------------- *)
(** ** Characters and strings *)
(* ---------------------------------------------------------------- *)

Import PyString Shape.

Ltac char_arith :=
  unfold is_space, is_digit in *;
  repeat match goal with
    | H : _ && _ = true |- _ => apply andb_true_iff in H; destruct H
    | H : (_ <=? _)%nat = true |- _ => apply Nat.leb_le in H
    end;
  repeat match goal with
    | |- context [(?a <=? ?b)%nat] => destruct (Nat.leb_spec a b)
    end;
  simpl; try reflexivity; try lia.

Lemma digit_not_space c : is_digit c = true -> is_space c = false.
Proof. intros H. char_arith. Qed.

Lemma digit_neq c (d : ascii) :
  is_digit c = true -> is_digit d = false -> Ascii.eqb c d = false.
Proof.
  intros H1 H2. destruct (Ascii.eqb_spec c d); [congruence | reflexivity].
Qed.

Lemma app_empty_r (s : string) : s +:+ "" = s.
Proof. induction s; simpl; congruence. Qed.

Lemma app_assoc_s (a b c : string) : (a +:+ b) +:+ c = a +:+ (b +:+ c).
Proof. induction a; simpl; congruence. Qed.

Lemma lstrip_app_space ws s : all_space ws = true -> lstrip (ws +:+ s) = lstrip s.
Proof.
  induction ws as [|c ws IH]; simpl; [reflexivity|].
  intros H. apply andb_true_iff in H as [Hc Hws]. rewrite Hc. auto.
Qed.

Lemma lstrip_first s c :
  first_char s = Some c -> is_space c = false -> lstrip s = s.
Proof. destruct s; simpl; [discriminate|]. intros [= ->] ->. reflexivity. Qed.

Lemma lstrip_spec s :
  exists ws, all_space ws = true /\ s = ws +:+ lstrip s /\
             from_option is_space false (first_char (lstrip s)) = false.
Proof.
  induction s as [|c s (ws & Hws & Hs & Hf)]; simpl.
  - exists "". auto.
  - destruct (is_space c) eqn:Hc.
    + exists (String c ws). simpl. rewrite Hc, Hws. split; [reflexivity|].
      split; [f_equal; exact Hs | assumption].
    + exists "". simpl. rewrite Hc. auto.
Qed.

Lemma rstrip_all_space ws : all_space ws = true -> rstrip ws = "".
Proof.
  induction ws as [|c ws IH]; simpl; [reflexivity|].
  intros H. apply andb_true_iff in H as [Hc Hws]. rewrite (IH Hws), Hc.
  reflexivity.
Qed.

Lemma rstrip_app_space s ws : all_space ws = true -> rstrip (s +:+ ws) = rstrip s.
Proof.
  intros H. induction s as [|c s IH]; simpl.
  - apply rstrip_all_space, H.
  - rewrite IH. reflexivity.
Qed.

Lemma rstrip_last s c :
  last_char s = Some c -> is_space c = false -> rstrip s = s.
Proof.
  induction s as [|a s IH]; simpl; [discriminate|].
  destruct s as [|b s].
  - intros [= ->] ->. reflexivity.
  - intros Hl Hc. rewrite (IH Hl Hc). reflexivity.
Qed.

Lemma rstrip_spec s :
  exists ws, all_space ws = true /\ s = rstrip s +:+ ws /\
             from_option is_space false (last_char (rstrip s)) = false.
Proof.
  induction s as [|c s (ws & Hws & Hs & Hl)].
  - exists "". auto.
  - simpl. destruct (rstrip s) as [|b r] eqn:Hr.
    + destruct (is_space c) eqn:Hc.
      * exists (String c ws). simpl. rewrite Hc, Hws.
        simpl in Hs. split; [reflexivity|]. split; [congruence | reflexivity].
      * exists ws. simpl in *. rewrite Hc. split; [assumption|].
        split; [congruence | reflexivity].
    + exists ws. split; [assumption|]. split.
      * simpl. f_equal. exact Hs.
      * simpl in *. destruct r; assumption.
Qed.

Lemma rstrip_first s c :
  first_char s = Some c -> is_space c = false -> first_char (rstrip s) = Some c.
Proof.
  destruct s as [|a s]; simpl; [discriminate|]. intros [= ->] Hc.
  destruct (rstrip s); [rewrite Hc|]; reflexivity.
Qed.

Lemma strip_trimmed s : trimmed (strip s) = true.
Proof.
  unfold trimmed, strip.
  destruct (lstrip_spec s) as (ws1 & _ & _ & Hf).
  destruct (rstrip_spec (lstrip s)) as (ws2 & _ & _ & Hl).
  rewrite Hl, andb_true_r.
  destruct (first_char (lstrip s)) as [c|] eqn:Hc.
  - simpl in Hf. rewrite (rstrip_first _ _ Hc Hf). simpl. rewrite Hf. reflexivity.
  - destruct (lstrip s); [reflexivity | discriminate].
Qed.

Lemma strip_spec s : trim_of s (strip s).
Proof.
  destruct (lstrip_spec s) as (ws1 & H1 & Hs1 & _).
  destruct (rstrip_spec (lstrip s)) as (ws2 & H2 & Hs2 & _).
  exists ws1, ws2. repeat split; try assumption.
  - unfold strip. rewrite <- Hs2. exact Hs1.
  - apply strip_trimmed.
Qed.

Lemma lstrip_all_space ws : all_space ws = true -> lstrip ws = "".
Proof.
  induction ws as [|c ws IH]; simpl; [reflexivity|].
  intros H. apply andb_true_iff in H as [-> Hws]. auto.
Qed.

Lemma last_char_cons c s : exists l, last_char (String c s) = Some l.
Proof.
  revert c. induction s as [|a s IH]; intros c; simpl; [eauto|].
  apply (IH a).
Qed.

Lemma strip_of_trimmed ws1 ws2 t :
  all_space ws1 = true -> all_space ws2 = true -> trimmed t = true ->
  strip (ws1 +:+ t +:+ ws2) = t.
Proof.
  intros H1 H2 Ht. unfold strip. rewrite lstrip_app_space by assumption.
  unfold trimmed in Ht. apply andb_true_iff in Ht as [Hf Hl].
  apply negb_true_iff in Hf, Hl.
  destruct t as [|c t].
  - simpl. rewrite (lstrip_all_space ws2 H2). reflexivity.
  - rewrite (lstrip_first (String c t +:+ ws2) c) by (simpl in *; auto).
    rewrite rstrip_app_space by assumption.
    destruct (last_char_cons c t) as [l Hlc].
    rewrite Hlc in Hl. apply (rstrip_last _ l Hlc). exact Hl.
Qed.


(* ---------------------------------------------------------------- *)
(** ** [_safe_str] *)
(* ---------------------------------------------------------------- *)




(* ---------------------------------------------------------------- *)
(** ** [_safe_float] *)
(* ---------------------------------------------------------------- *)

(** C10: a float goes through [_safe_float] unchanged, the sentinel test
    and the parser are not applied to it; a float NaN comes out as NaN,
    not as the absent value. *)
Theorem safe_float_keeps_floats :
  (forall f : pyfloat, _safe_float (PyFloat f) = Return (Some f)) /\
  _safe_float (PyFloat FNan) = Return (Some FNan) /\
  _safe_float (PyFloat FNan) <> Return None.
Proof. repeat split; intros; discriminate. Qed.

Lemma safe_float_returns (x : pyval) : exists r, _safe_float x = Return r.
Proof.
  unfold _safe_float, try_except.
  match goal with |- exists r, match ?b with _ => _ end = _ => destruct b end;
    eauto.
Qed.

Lemma forall_chars_impl (p q : ascii -> bool) s :
  (forall c, p c = true -> q c = true) ->
  forall_chars p s = true -> forall_chars q s = true.
Proof.
  intros Hpq. induction s as [|c s IH]; simpl; [reflexivity|].
  intros H. apply andb_true_iff in H as [Hc Hs].
  rewrite (Hpq _ Hc), (IH Hs). reflexivity.
Qed.

Lemma forall_chars_app p a b :
  forall_chars p (a +:+ b) = forall_chars p a && forall_chars p b.
Proof.
  induction a as [|c a IH]; simpl; [reflexivity|].
  rewrite IH, andb_assoc. reflexivity.
Qed.

Lemma all_space_forall s : all_space s = forall_chars is_space s.
Proof. induction s; simpl; congruence. Qed.

Lemma all_digits_forall s : all_digits s = forall_chars is_digit s.
Proof. induction s; simpl; congruence. Qed.

(** A character that is not [c], for a character [c] outside the class
    [p]. *)
Lemma class_neq (p : ascii -> bool) (c x : ascii) :
  p c = false -> p x = true -> Ascii.eqb x c = false.
Proof.
  intros Hc Hx. destruct (Ascii.eqb_spec x c); [congruence | reflexivity].
Qed.

Lemma space_not_digit c : is_space c = true -> is_digit c = false.
Proof.
  intros H. destruct (is_digit c) eqn:Hd; [|reflexivity].
  apply digit_not_space in Hd. congruence.
Qed.

Lemma value_digits_app acc a b :
  value_digits acc (a +:+ b) = value_digits (value_digits acc a) b.
Proof. revert acc. induction a as [|c a IH]; simpl; auto. Qed.

Lemma value_digits_none acc s :
  forall_chars (fun c => negb (is_digit c)) s = true -> value_digits acc s = acc.
Proof.
  revert acc. induction s as [|c s IH]; simpl; [reflexivity|].
  intros acc H. apply andb_true_iff in H as [Hc Hs].
  apply negb_true_iff in Hc. rewrite Hc. auto.
Qed.

Lemma count_digits_app a b :
  count_digits (a +:+ b) = count_digits a + count_digits b.
Proof. induction a as [|c a IH]; simpl; [reflexivity|]. rewrite IH. lia. Qed.

Lemma count_digits_none s :
  forall_chars (fun c => negb (is_digit c)) s = true -> count_digits s = 0.
Proof.
  induction s as [|c s IH]; simpl; [reflexivity|].
  intros H. apply andb_true_iff in H as [Hc Hs].
  apply negb_true_iff in Hc. rewrite Hc, (IH Hs). reflexivity.
Qed.

Lemma count_digits_all d : all_digits d = true -> count_digits d = String.length d.
Proof.
  induction d as [|c d IH]; simpl; [reflexivity|].
  intros H. apply andb_true_iff in H as [-> Hd]. rewrite (IH Hd). reflexivity.
Qed.

Lemma contains_app c a b : contains c (a +:+ b) = contains c a || contains c b.
Proof.
  induction a as [|x a IH]; simpl; [reflexivity|].
  rewrite IH, orb_assoc. reflexivity.
Qed.

Lemma contains_none c s :
  forall_chars (fun x => negb (Ascii.eqb x c)) s = true -> contains c s = false.
Proof.
  induction s as [|x s IH]; simpl; [reflexivity|].
  intros H. apply andb_true_iff in H as [Hx Hs].
  apply negb_true_iff in Hx. rewrite Hx, (IH Hs). reflexivity.
Qed.

Lemma after_sep_app a b :
  forall_chars (fun c => negb (is_sep c)) a = true ->
  after_sep (a +:+ b) = after_sep b.
Proof.
  induction a as [|c a IH]; simpl; [reflexivity|].
  intros H. apply andb_true_iff in H as [Hc Ha].
  apply negb_true_iff in Hc. rewrite Hc. auto.
Qed.

Lemma after_sep_none a :
  forall_chars (fun c => negb (is_sep c)) a = true -> after_sep a = "".
Proof.
  intros H. rewrite <- (app_empty_r a). rewrite after_sep_app by assumption.
  reflexivity.
Qed.

Lemma replace_app old new a b :
  replace old new (a +:+ b) = replace old new a +:+ replace old new b.
Proof. induction a as [|c a IH]; simpl; [reflexivity|]. rewrite IH. reflexivity. Qed.

Lemma replace_none old new s :
  forall_chars (fun x => negb (Ascii.eqb x old)) s = true -> replace old new s = s.
Proof.
  induction s as [|x s IH]; simpl; [reflexivity|].
  intros H. apply andb_true_iff in H as [Hx Hs].
  apply negb_true_iff in Hx. rewrite Hx, (IH Hs). reflexivity.
Qed.

Lemma remove_underscores_none prev s :
  prev <> Some "_"%char ->
  forall_chars (fun x => negb (Ascii.eqb x "_")) s = true ->
  PyFloat.remove_underscores prev s = Some s.
Proof.
  assert (forall p, p <> Some "_"%char ->
                    from_option (Ascii.eqb "_") false p = false) as Hp.
  { intros [a|] Ha; cbn [from_option]; [|reflexivity].
    destruct (Ascii.eqb_spec "_" a); [congruence | reflexivity]. }
  revert prev. induction s as [|x s IH]; intros prev Hprev; simpl.
  - rewrite (Hp _ Hprev). reflexivity.
  - intros H. apply andb_true_iff in H as [Hx Hs].
    apply negb_true_iff in Hx. rewrite Hx, (Hp _ Hprev). simpl.
    rewrite IH; [reflexivity | | assumption].
    intros [= ->]. discriminate.
Qed.

Lemma scan_digits_app d r acc :
  all_digits d = true ->
  from_option is_digit false (first_char r) = false ->
  PyFloat.scan_digits (d +:+ r) acc = (value_digits acc d, String.length d, r).
Proof.
  revert acc. induction d as [|c d IH]; intros acc Hd Hr; simpl.
  - destruct r as [|x r]; simpl in *; [reflexivity|]. rewrite Hr. reflexivity.
  - simpl in Hd. apply andb_true_iff in Hd as [Hc Hd]. rewrite Hc.
    rewrite (IH _ Hd Hr). reflexivity.
Qed.

Lemma skip_digits_spec s n r :
  skip_digits s = (n, r) ->
  exists d, s = d +:+ r /\ all_digits d = true /\ String.length d = n /\
            from_option is_digit false (first_char r) = false.
Proof.
  revert n r. induction s as [|c s IH]; intros n r; simpl.
  - intros [= <- <-]. exists "". auto.
  - destruct (is_digit c) eqn:Hc.
    + destruct (skip_digits s) as [n' r'] eqn:Hs. intros [= <- <-].
      destruct (IH _ _ eq_refl) as (d & -> & Hd & Hn & Hr).
      exists (String c d). simpl. rewrite Hc, Hd, Hn. auto.
    + intros [= <- <-]. exists "". simpl. rewrite Hc. auto.
Qed.

Lemma digits_avoid (c : ascii) d :
  is_digit c = false -> all_digits d = true ->
  forall_chars (fun x => negb (Ascii.eqb x c)) d = true.
Proof.
  intros Hc Hd. rewrite all_digits_forall in Hd.
  apply (forall_chars_impl is_digit); [|assumption].
  intros x Hx. rewrite (class_neq is_digit c x Hc Hx). reflexivity.
Qed.

Lemma spaces_avoid (c : ascii) ws :
  is_space c = false -> all_space ws = true ->
  forall_chars (fun x => negb (Ascii.eqb x c)) ws = true.
Proof.
  intros Hc Hw. rewrite all_space_forall in Hw.
  apply (forall_chars_impl is_space); [|assumption].
  intros x Hx. rewrite (class_neq is_space c x Hc Hx). reflexivity.
Qed.

Lemma digits_no_sep d :
  all_digits d = true -> forall_chars (fun c => negb (is_sep c)) d = true.
Proof.
  intros Hd. rewrite all_digits_forall in Hd.
  apply (forall_chars_impl is_digit); [|assumption].
  intros x Hx. unfold is_sep.
  rewrite (class_neq is_digit "." x eq_refl Hx).
  rewrite (class_neq is_digit "," x eq_refl Hx). reflexivity.
Qed.

Lemma spaces_no_sep ws :
  all_space ws = true -> forall_chars (fun c => negb (is_sep c)) ws = true.
Proof.
  intros Hw. rewrite all_space_forall in Hw.
  apply (forall_chars_impl is_space); [|assumption].
  intros x Hx. unfold is_sep.
  rewrite (class_neq is_space "." x eq_refl Hx).
  rewrite (class_neq is_space "," x eq_refl Hx). reflexivity.
Qed.

Lemma spaces_no_digit ws :
  all_space ws = true -> forall_chars (fun c => negb (is_digit c)) ws = true.
Proof.
  intros Hw. rewrite all_space_forall in Hw.
  apply (forall_chars_impl is_space); [|assumption].
  intros x Hx. rewrite (space_not_digit x Hx). reflexivity.
Qed.

Lemma is_sep_cases c : is_sep c = true -> c = "."%char \/ c = ","%char.
Proof.
  unfold is_sep. intros H. apply orb_true_iff in H as [H | H];
    apply Ascii.eqb_eq in H; auto.
Qed.

Lemma last_char_app a b : b <> "" -> last_char (a +:+ b) = last_char b.
Proof.
  intros Hb. induction a as [|c a IH]; [reflexivity|].
  simpl. rewrite IH. destruct (a +:+ b) eqn:E; [|reflexivity].
  destruct a; simpl in E; [congruence | discriminate].
Qed.

Lemma last_char_forall p s c :
  forall_chars p s = true -> last_char s = Some c -> p c = true.
Proof.
  induction s as [|a s IH]; simpl; [discriminate|].
  intros H. apply andb_true_iff in H as [Ha Hs].
  destruct s; [intros [= <-]; assumption | auto].
Qed.

Lemma digits_end_unspaced d :
  all_digits d = true -> from_option is_space false (last_char d) = false.
Proof.
  intros Hd. destruct (last_char d) as [c|] eqn:Hl; [|reflexivity].
  simpl. apply digit_not_space. rewrite all_digits_forall in Hd.
  exact (last_char_forall _ _ _ Hd Hl).
Qed.

Lemma decimal_shape_inv s :
  decimal_shape s = true ->
  exists ws1 neg d1 fr ws2,
    s = ws1 +:+ (sign_text neg +:+ d1 +:+ fr) +:+ ws2 /\
    all_space ws1 = true /\ all_space ws2 = true /\
    all_digits d1 = true /\ d1 <> "" /\ fraction_ok fr.
Proof.
  unfold decimal_shape. destruct (lstrip_spec s) as (ws1 & Hws1 & Hs & _).
  set (s2 := match lstrip s with
             | EmptyString => lstrip s
             | String c r => if Ascii.eqb c "-" then r else lstrip s
             end).
  assert (exists neg, lstrip s = sign_text neg +:+ s2) as [neg Hneg].
  { subst s2. destruct (lstrip s) as [|c r]; [exists false; reflexivity|].
    destruct (Ascii.eqb_spec c "-") as [-> | _];
      [exists true | exists false]; reflexivity. }
  destruct (skip_digits s2) as [n1 s3] eqn:H1.
  destruct (skip_digits_spec _ _ _ H1) as (d1 & Hd1 & Hdig1 & Hn1 & _).
  intros H. apply andb_true_iff in H as [Hpos H].
  apply Nat.ltb_lt in Hpos.
  assert (d1 <> "") as Hne1 by (intros ->; simpl in Hn1; lia).
  assert (forall fr ws2, s3 = fr +:+ ws2 ->
            s = ws1 +:+ (sign_text neg +:+ d1 +:+ fr) +:+ ws2) as Hglue.
  { intros fr ws2 ->. rewrite Hs at 1. rewrite Hneg, Hd1.
    rewrite !app_assoc_s. reflexivity. }
  destruct s3 as [|c r].
  - exists ws1, neg, d1, "", "". repeat split; auto. left; reflexivity.
  - destruct (is_sep c) eqn:Hc.
    + destruct (skip_digits r) as [n2 s4] eqn:H2.
      destruct (skip_digits_spec _ _ _ H2) as (d2 & Hd2 & Hdig2 & Hn2 & _).
      apply andb_true_iff in H as [Hpos2 Hws2]. apply Nat.ltb_lt in Hpos2.
      exists ws1, neg, d1, (String c d2), s4. repeat split; auto.
      * apply Hglue. rewrite Hd2. reflexivity.
      * right. exists c, d2. repeat split; auto.
        intros ->; simpl in Hn2; lia.
    + exists ws1, neg, d1, "", (String c r). repeat split; auto.
      left; reflexivity.
Qed.

Section Core.

Variables (neg : bool) (d1 fr : string).
Hypothesis Hd1 : all_digits d1 = true.
Hypothesis Hne : d1 <> "".
Hypothesis Hfr : fraction_ok fr.

Let core : string := sign_text neg +:+ d1 +:+ fr.

Lemma core_first :
  exists c r, core = String c r /\ is_space c = false /\
              Ascii.eqb (lower_char c) "n" = false.
Proof using Hd1 Hne.
  subst core. destruct neg; simpl.
  - eexists _, _. split; [reflexivity|]. split; reflexivity.
  - destruct d1 as [|c d]; [congruence|]. simpl in Hd1.
    apply andb_true_iff in Hd1 as [Hc _].
    eexists _, _. split; [reflexivity|]. split; [apply digit_not_space, Hc|].
    assert (lower_char c = c) as ->.
    { unfold lower_char. revert Hc. unfold is_digit. intros Hc.
      apply andb_true_iff in Hc as [_ Hc]. apply Nat.leb_le in Hc.
      destruct (Nat.leb_spec 65 (nat_of_ascii c)); [lia | reflexivity]. }
    apply (class_neq is_digit "n" c eq_refl Hc).
Qed.

Lemma core_trimmed : trimmed core = true.
Proof using Hd1 Hne Hfr.
  destruct core_first as (c & r & Hcore & Hc & _).
  unfold trimmed. rewrite Hcore at 1. simpl. rewrite Hc. simpl.
  apply negb_true_iff. subst core.
  destruct Hfr as [-> | (x & d2 & -> & Hx & Hd2 & Hne2)].
  - rewrite app_empty_r, last_char_app by assumption.
    apply digits_end_unspaced, Hd1.
  - rewrite <- app_assoc_s.
    change (String x d2) with (String x "" +:+ d2).
    rewrite <- app_assoc_s, last_char_app by assumption.
    apply digits_end_unspaced, Hd2.
Qed.

Lemma core_not_sentinel : is_sentinel core = false.
Proof using Hd1 Hne.
  destruct core_first as (c & r & -> & _ & Hn).
  unfold is_sentinel. simpl. rewrite Hn. reflexivity.
Qed.

Lemma core_replace :
  replace "," "." core = sign_text neg +:+ d1 +:+ period_fraction fr.
Proof using Hd1 Hfr.
  subst core. rewrite !replace_app.
  rewrite (replace_none _ _ d1) by (apply digits_avoid; auto).
  f_equal; [destruct neg; reflexivity|]. f_equal.
  destruct Hfr as [-> | (x & d2 & -> & Hx & Hd2 & _)]; [reflexivity|].
  simpl. rewrite (replace_none _ _ d2) by (apply digits_avoid; auto).
  destruct (is_sep_cases _ Hx) as [-> | ->]; reflexivity.
Qed.

Lemma core_value :
  value_digits 0 core = value_digits 0 (d1 +:+ fr) /\
  contains "-" core = neg /\
  count_digits (after_sep core) = count_digits fr.
Proof using Hd1 Hfr.
  subst core. split; [|split].
  - destruct neg; reflexivity.
  - rewrite !contains_app.
    rewrite (contains_none _ d1) by (apply digits_avoid; auto).
    destruct Hfr as [-> | (x & d2 & -> & Hx & Hd2 & _)].
    + destruct neg; reflexivity.
    + simpl. rewrite (contains_none _ d2) by (apply digits_avoid; auto).
      destruct (is_sep_cases _ Hx) as [-> | ->]; destruct neg; reflexivity.
  - rewrite (after_sep_app (sign_text neg)) by (destruct neg; reflexivity).
    rewrite (after_sep_app d1) by (apply digits_no_sep, Hd1).
    destruct Hfr as [-> | (x & d2 & -> & Hx & Hd2 & _)]; [reflexivity|].
    simpl. rewrite Hx.
    destruct (is_sep_cases _ Hx) as [-> | ->]; reflexivity.
Qed.

End Core.

Lemma parse_sign_core neg c r :
  is_digit c = true ->
  PyFloat.parse_sign (sign_text neg +:+ String c r) = (neg, String c r).
Proof.
  intros Hc. destruct neg; [reflexivity|]. simpl.
  rewrite (class_neq is_digit "-" c eq_refl Hc).
  rewrite (class_neq is_digit "+" c eq_refl Hc). reflexivity.
Qed.

Lemma scan_digits_all d acc :
  all_digits d = true ->
  PyFloat.scan_digits d acc = (value_digits acc d, String.length d, "").
Proof.
  intros Hd. pose proof (scan_digits_app d "" acc Hd eq_refl) as H.
  rewrite app_empty_r in H. exact H.
Qed.

Lemma parse_number_core neg d1 fr :
  all_digits d1 = true -> d1 <> "" -> fraction_ok fr ->
  PyFloat.parse_number (sign_text neg +:+ d1 +:+ period_fraction fr) =
  Some (FFinite neg (value_digits 0 (d1 +:+ fr))
                (- Z.of_nat (count_digits fr))).
Proof.
  intros Hd1 Hne Hfr. unfold PyFloat.parse_number.
  destruct d1 as [|c d]; [congruence|].
  assert (is_digit c = true) as Hc.
  { simpl in Hd1. apply andb_true_iff in Hd1 as [Hc _]. exact Hc. }
  change (String c d +:+ period_fraction fr)
    with (String c (d +:+ period_fraction fr)).
  rewrite (parse_sign_core neg c _ Hc).
  change (String c (d +:+ period_fraction fr))
    with (String c d +:+ period_fraction fr).
  destruct Hfr as [-> | (x & d2 & -> & Hx & Hd2 & Hne2)].
  - cbn [period_fraction]. rewrite !app_empty_r.
    rewrite (scan_digits_all (String c d) 0 Hd1). reflexivity.
  - cbn [period_fraction].
    rewrite (scan_digits_app (String c d) (String "." d2) 0 Hd1 eq_refl).
    cbn [Ascii.eqb Bool.eqb]. cbv iota.
    rewrite (scan_digits_all d2 _ Hd2).
    assert (value_digits 0 (String c d +:+ String x d2)
            = value_digits (value_digits 0 (String c d)) d2) as ->.
    { rewrite value_digits_app. cbn [value_digits].
      destruct (is_sep_cases _ Hx) as [-> | ->]; reflexivity. }
    assert (count_digits (String x d2) = String.length d2) as ->.
    { cbn [count_digits]. rewrite (count_digits_all d2 Hd2).
      destruct (is_sep_cases _ Hx) as [-> | ->]; reflexivity. }
    reflexivity.
Qed.

Lemma float_core neg d1 fr :
  all_digits d1 = true -> d1 <> "" -> fraction_ok fr ->
  PyFloat.float (sign_text neg +:+ d1 +:+ period_fraction fr) =
  Return (FFinite neg (value_digits 0 (d1 +:+ fr))
                  (- Z.of_nat (count_digits fr))).
Proof.
  intros Hd1 Hne Hfr.
  assert (fraction_ok (period_fraction fr)) as Hfr'.
  { destruct Hfr as [-> | (x & d2 & -> & Hx & Hd2 & Hne2)]; [left; reflexivity|].
    right. exists "."%char, d2. auto. }
  unfold PyFloat.float.
  pose proof (core_trimmed neg d1 _ Hd1 Hne Hfr') as Ht.
  pose proof (strip_of_trimmed "" "" _ eq_refl eq_refl Ht) as Hs.
  rewrite app_empty_r in Hs. simpl in Hs. rewrite Hs.
  rewrite remove_underscores_none; [| discriminate |].
  - rewrite parse_number_core by assumption. reflexivity.
  - rewrite !forall_chars_app.
    rewrite (digits_avoid "_" d1 eq_refl Hd1).
    destruct Hfr as [-> | (x & d2 & -> & Hx & Hd2 & Hne2)].
    + destruct neg; reflexivity.
    + cbn [period_fraction forall_chars].
      rewrite (digits_avoid "_" d2 eq_refl Hd2). destruct neg; reflexivity.
Qed.

Lemma decimal_value_decomposed ws1 neg d1 fr ws2 :
  all_space ws1 = true -> all_space ws2 = true ->
  all_digits d1 = true -> fraction_ok fr ->
  decimal_value (ws1 +:+ (sign_text neg +:+ d1 +:+ fr) +:+ ws2) =
  FFinite neg (value_digits 0 (d1 +:+ fr)) (- Z.of_nat (count_digits fr)).
Proof.
  intros H1 H2 Hd1 Hfr. unfold decimal_value.
  destruct (core_value neg d1 fr Hd1 Hfr) as (Hv & Hc & _).
  f_equal.
  - rewrite (contains_app _ ws1), (contains_app _ (sign_text neg +:+ d1 +:+ fr)), Hc.
    rewrite (contains_none _ ws1) by (apply spaces_avoid; auto).
    rewrite (contains_none _ ws2) by (apply spaces_avoid; auto).
    rewrite orb_false_r. reflexivity.
  - rewrite (value_digits_app _ ws1).
    rewrite (value_digits_app _ (sign_text neg +:+ d1 +:+ fr)).
    rewrite (value_digits_none _ ws1) by (apply spaces_no_digit, H1).
    rewrite (value_digits_none _ ws2) by (apply spaces_no_digit, H2).
    exact Hv.
  - do 2 f_equal.
    rewrite (after_sep_app ws1) by (apply spaces_no_sep, H1).
    rewrite !app_assoc_s.
    rewrite (after_sep_app (sign_text neg)) by (destruct neg; reflexivity).
    rewrite (after_sep_app d1) by (apply digits_no_sep, Hd1).
    destruct Hfr as [-> | (x & d2 & -> & Hx & Hd2 & _)].
    + simpl. rewrite (after_sep_none ws2) by (apply spaces_no_sep, H2).
      reflexivity.
    + simpl. rewrite Hx, count_digits_app.
      rewrite (count_digits_none ws2) by (apply spaces_no_digit, H2).
      destruct (is_sep_cases _ Hx) as [-> | ->]; simpl; lia.
Qed.

(** A text of decimal shape is read as the number it denotes. *)
Lemma safe_float_decimal (s : string) :
  decimal_shape s = true ->
  is_sentinel (strip s) = false /\
  PyFloat.float (replace "," "." (strip s)) = Return (decimal_value s) /\
  _safe_float (PyStr s) = Return (Some (decimal_value s)).
Proof.
  intros H.
  destruct (decimal_shape_inv s H)
    as (ws1 & neg & d1 & fr & ws2 & -> & H1 & H2 & Hd1 & Hne & Hfr).
  pose proof (core_trimmed neg d1 fr Hd1 Hne Hfr) as Ht.
  pose proof (core_not_sentinel neg d1 fr Hd1 Hne) as Hsent.
  pose proof (core_replace neg d1 fr Hd1 Hfr) as Hrep.
  pose proof (float_core neg d1 fr Hd1 Hne Hfr) as Hfl.
  rewrite decimal_value_decomposed by assumption.
  assert (strip (ws1 +:+ (sign_text neg +:+ d1 +:+ fr) +:+ ws2)
          = sign_text neg +:+ d1 +:+ fr) as Hstrip
    by (apply strip_of_trimmed; assumption).
  rewrite Hstrip. split; [exact Hsent|]. split.
  - rewrite Hrep. exact Hfl.
  - unfold _safe_float, try_except. cbn [py_str]. rewrite Hstrip, Hsent, Hrep, Hfl.
    reflexivity.
Qed.

Lemma safe_float_text (s : string) :
  _safe_float (PyStr s) =
  Return (if is_sentinel (strip s) then None
          else match PyFloat.float (replace "," "." (strip s)) with
               | Return f => Some f
               | Raise _ => None
               end).
Proof.
  unfold _safe_float, try_except. cbn [py_str].
  destruct (is_sentinel (strip s)); [reflexivity|].
  destruct (PyFloat.float _); reflexivity.
Qed.

Lemma safe_float_by_text (x : pyval) :
  x <> PyNone -> (forall f, x <> PyFloat f) ->
  _safe_float x = _safe_float (PyStr (py_str x)).
Proof.
  intros Hn Hf. destruct x as [| b | z | f | s]; try reflexivity.
  destruct (Hf f eq_refl).
Qed.

(** C5, amended: [_safe_float] never raises; [None] gives the absent
    value and a float is returned as it is; for any other value, read by
    its text, an empty or nan/none/null text gives the absent value, a
    text of decimal shape gives the number it denotes with its comma read
    as a period, and otherwise the result is what [float] makes of the
    text: its number when it accepts the text, the absent value when it
    rejects it. *)
Theorem safe_float_total (x : pyval) :
  exists r, _safe_float x = Return r /\
    match x with
    | PyNone => r = None
    | PyFloat f => r = Some f
    | _ =>
        let s := strip (py_str x) in
        (is_sentinel s = true -> r = None) /\
        (decimal_shape (py_str x) = true ->
           r = Some (decimal_value (py_str x))) /\
        (is_sentinel s = false ->
           r = match PyFloat.float (replace "," "." s) with
               | Return f => Some f
               | Raise _ => None
               end)
    end.
Proof.
  assert (forall y, y <> PyNone -> (forall f, y <> PyFloat f) ->
            exists r, _safe_float y = Return r /\
              let s := strip (py_str y) in
              (is_sentinel s = true -> r = None) /\
              (decimal_shape (py_str y) = true ->
                 r = Some (decimal_value (py_str y))) /\
              (is_sentinel s = false ->
                 r = match PyFloat.float (replace "," "." s) with
                     | Return f => Some f
                     | Raise _ => None
                     end)) as Htext.
  { intros y Hn Hf. rewrite (safe_float_by_text y Hn Hf), safe_float_text.
    eexists. split; [reflexivity|]. cbn zeta. split; [|split].
    - intros ->. reflexivity.
    - intros Hd. destruct (safe_float_decimal _ Hd) as (Hs & Hfl & _).
      rewrite Hs, Hfl. reflexivity.
    - intros ->. reflexivity. }
  destruct x as [| b | z | f | s].
  - exists None. split; reflexivity.
  - apply Htext; congruence.
  - apply Htext; congruence.
  - exists (Some f). split; reflexivity.
  - apply Htext; congruence.
Qed.

(* ---------------------------------------------------------------- *)
(** ** One chunk *)
(* ---------------------------------------------------------------- *)

Lemma build_row_returns sid df i : exists r, build_row sid df i = Return r.
Proof.
  unfold build_row.
  destruct (safe_float_returns (row_get df i "power_kw")) as [a ->].
  destruct (safe_float_returns (row_get df i "voltage_v")) as [b ->].
  destruct (safe_float_returns (row_get df i "current_a")) as [c ->].
  destruct (safe_float_returns (row_get df i "energy_kwh")) as [d ->].
  simpl. eauto.
Qed.

Lemma build_rows_returns sid df idxs :
  exists rows, build_rows sid df idxs = Return rows /\
               length rows = length idxs.
Proof.
  induction idxs as [|i idxs (rows & IH & Hl)]; simpl; [eauto|].
  destruct (build_row_returns sid df i) as [r ->]. rewrite IH. simpl.
  eexists. split; [reflexivity|]. simpl. lia.
Qed.

Lemma chunk_rows_built sid comb c :
  build_rows sid (chunk_frame comb c) (seq 0 (f_len (chunk_frame comb c)))
  = Return (chunk_rows sid comb c) /\
  length (chunk_rows sid comb c) = f_len (chunk_frame comb c).
Proof.
  unfold chunk_rows. cbn zeta.
  destruct (build_rows_returns sid (chunk_frame comb c)
              (seq 0 (f_len (chunk_frame comb c)))) as (rows & -> & Hl).
  rewrite length_seq in Hl. auto.
Qed.

Lemma process_chunk_no_timestamp w sid path comb idx c st :
  chunk_has_timestamp comb c = false ->
  process_chunk w sid path comb idx c st =
  (st, Raise (ValueError_timestamp path (strip <$> df_columns c))).
Proof.
  unfold chunk_has_timestamp, process_chunk. cbn zeta. intros ->. reflexivity.
Qed.

Lemma process_chunk_unfold w sid path comb idx c st :
  chunk_has_timestamp comb c = true ->
  process_chunk w sid path comb idx c st =
  let rows := chunk_rows sid comb c in
  let st := note_dropped comb c st in
  match w_storage w idx rows with
  | Stored =>
      let st := with_db commit (with_db (executemany_ok rows) st) in
      let total := total_inserted st + length rows in
      (print (MsgInserted (length rows) total)
             (mkState (db st) total (stdout st)), Return tt)
  | InsertFailure k e =>
      (with_db rollback (with_db (executemany_fail k rows) st),
       Raise (RuntimeError e))
  | CommitFailure e =>
      (with_db rollback
         (with_db commit_fail (with_db (executemany_ok rows) st)),
       Raise (RuntimeError e))
  end.
Proof.
  unfold chunk_has_timestamp, process_chunk. cbn zeta. intros ->.
  cbn [negb]. cbv iota.
  destruct (chunk_rows_built sid comb c) as [Hb _].
  unfold note_dropped, chunk_before. unfold chunk_frame in *. cbn zeta in *.
  destruct (df_to_insert _ _) as [df n]. cbn [fst snd] in *.
  rewrite Hb. reflexivity.
Qed.

(* ---------------------------------------------------------------- *)
(** ** The frame of a chunk *)
(* ---------------------------------------------------------------- *)

Lemma getcol_length df c :
  c ∈ df_columns df -> length (getcol df c) = length (df_rows df).
Proof.
  unfold getcol. intros Hc.
  assert (is_Some (index_of c (df_columns df))) as [i ->].
  { induction (df_columns df) as [|x l IH]; [inversion Hc|]. simpl.
    destruct (String.eqb_spec x c) as [-> | Hne]; [eauto|].
    apply elem_of_cons in Hc as [-> | Hc]; [congruence|].
    destruct (IH Hc) as [i ->]. simpl. eauto. }
  apply length_fmap.
Qed.

Lemma dict_set_elem {V} (k : string) (v : V) d kv :
  kv ∈ dict_set k v d -> kv.1 = k \/ kv ∈ d.
Proof.
  induction d as [|[k' v'] d IH]; simpl.
  - intros ->%list_elem_of_singleton. auto.
  - destruct (String.eqb k' k).
    + intros [-> | H]%elem_of_cons; [auto|]. right. apply elem_of_cons. auto.
    + intros [-> | H]%elem_of_cons; [right; apply elem_of_cons; auto|].
      destruct (IH H) as [? | ?]; [auto|]. right. apply elem_of_cons. auto.
Qed.

Lemma col_map_existing_keys comb cols kv :
  kv ∈ col_map_existing comb cols -> kv.1 ∈ cols.
Proof.
  unfold col_map_existing.
  assert (forall acc, kv ∈ foldl (fun acc c =>
                                    match resolve comb c with
                                    | Some t => dict_set c t acc
                                    | None => acc
                                    end) acc cols ->
                      kv ∈ acc \/ kv.1 ∈ cols) as H.
  { induction cols as [|c cols IH]; intros acc; simpl; [auto|].
    intros [Hacc | Hin]%IH; [|right; apply elem_of_cons; auto].
    destruct (resolve comb c); [|auto].
    apply dict_set_elem in Hacc as [-> | ?]; [right; apply elem_of_cons|]; auto. }
  intros [Hnil | ?]%H; [inversion Hnil | assumption].
Qed.

Lemma source_of_elem t cme s : source_of t cme = Some s -> (s, t) ∈ cme.
Proof.
  induction cme as [|[src t'] r IH]; simpl; [discriminate|].
  destruct (source_of t r) as [s'|].
  - intros [= ->]. apply elem_of_cons. auto.
  - destruct (String.eqb_spec t' t) as [-> | _]; [|discriminate].
    intros [= ->]. apply elem_of_cons. auto.
Qed.

Lemma has_timestamp_source cme :
  has_timestamp cme = true -> is_Some (source_of "timestamp" cme).
Proof.
  unfold has_timestamp. induction cme as [|[src t'] r IH]; simpl; [discriminate|].
  intros H. destruct (source_of "timestamp" r); [eauto|].
  apply orb_true_iff in H as [-> | H]; [eauto|].
  destruct (IH H) as [? [=]].
Qed.

Lemma foldl_frame_set_lookup chunk cme df0 t :
  f_cols (foldl (fun df kv => frame_set df kv.2 (getcol chunk kv.1)) df0 cme)
    !! t =
  match source_of t cme with
  | Some s => Some (getcol chunk s)
  | None => f_cols df0 !! t
  end.
Proof.
  revert df0. induction cme as [|[src t'] r IH]; intros df0; simpl; [reflexivity|].
  rewrite IH. destruct (source_of t r); [reflexivity|]. simpl.
  rewrite lookup_insert.
  destruct (String.eqb_spec t' t) as [-> | Hne].
  - rewrite decide_True by reflexivity. reflexivity.
  - rewrite decide_False by assumption. reflexivity.
Qed.

Lemma foldl_frame_set_len chunk cme df0 n :
  (forall kv, kv ∈ cme -> length (getcol chunk kv.1) = n) ->
  (f_cols df0 <> ∅ -> f_len df0 = n) ->
  cme <> [] ->
  f_len (foldl (fun df kv => frame_set df kv.2 (getcol chunk kv.1)) df0 cme) = n.
Proof.
  revert df0. induction cme as [|kv r IH]; intros df0 Hlen H0 Hne; [congruence|].
  simpl.
  assert (f_len (frame_set df0 kv.2 (getcol chunk kv.1)) = n) as Hn.
  { unfold frame_set. simpl. case_bool_decide as He.
    - apply Hlen. apply elem_of_cons. auto.
    - auto. }
  destruct r as [|kv' r']; [exact Hn|].
  apply IH; [| auto | discriminate].
  intros x Hx. apply Hlen. apply elem_of_cons. auto.
Qed.

Lemma foldl_optional_len df l :
  f_len (foldl (fun df col =>
                  match f_cols df !! col with
                  | Some _ => df
                  | None => frame_set_scalar df col PyNone
                  end) df l) = f_len df.
Proof.
  revert df. induction l as [|c l IH]; intros df; simpl; [reflexivity|].
  rewrite IH. destruct (f_cols df !! c); reflexivity.
Qed.

Ltac filter_step :=
  repeat first
    [ rewrite (filter_cons_True (fun b : bool => b = true)) by reflexivity
    | rewrite (filter_cons_False (fun b : bool => b = true)) by discriminate
    | rewrite (filter_cons_True (fun t => notna t = false)) by reflexivity
    | rewrite (filter_cons_False (fun t => notna t = false)) by discriminate ];
  csimpl.

Lemma count_notna (ts : list (option string)) :
  length (omap id ts) = length (filter (fun b => b = true) (notna <$> ts)).
Proof. induction ts as [|[t|] ts IH]; csimpl; filter_step; lia. Qed.

Lemma count_split (ts : list (option string)) :
  length (filter (fun b => b = true) (notna <$> ts)) +
  length (filter (fun t => notna t = false) ts) = length ts.
Proof. induction ts as [|[t|] ts IH]; csimpl; filter_step; lia. Qed.

(** With a timestamp column, the frame of a chunk has the rows of the
    chunk before the drop, and afterwards those whose timestamp parses. *)
Lemma chunk_frame_rows comb c :
  chunk_has_timestamp comb c = true ->
  chunk_before comb c = length (df_rows c) /\
  f_len (chunk_frame comb c) + unparseable comb c = length (df_rows c).
Proof.
  unfold chunk_has_timestamp. intros Hts.
  set (c' := strip_columns c) in *.
  set (cme := col_map_existing comb (df_columns c')) in *.
  assert (forall kv, kv ∈ cme -> length (getcol c' kv.1) = length (df_rows c))
    as Hcols.
  { intros kv Hkv. apply col_map_existing_keys in Hkv.
    apply (getcol_length c'), Hkv. }
  assert (cme <> []) as Hne by (intros E; rewrite E in Hts; discriminate).
  destruct (has_timestamp_source cme Hts) as [src Hsrc].
  assert (f_len (foldl (fun df kv => frame_set df kv.2 (getcol c' kv.1))
                       frame_empty cme) = length (df_rows c)) as Hbefore.
  { apply foldl_frame_set_len; [exact Hcols | | exact Hne].
    intros H. destruct H. reflexivity. }
  assert (frame_get (foldl (fun df kv => frame_set df kv.2 (getcol c' kv.1))
                           frame_empty cme) "timestamp"
          = timestamp_cells comb c) as Hcol.
  { unfold frame_get, timestamp_cells. rewrite foldl_frame_set_lookup.
    fold c' cme. rewrite Hsrc. reflexivity. }
  split.
  - unfold chunk_before. fold c' cme. unfold df_to_insert. cbn zeta.
    cbn [snd]. exact Hbefore.
  - unfold chunk_frame, unparseable. fold c' cme. unfold df_to_insert.
    cbn zeta. cbn [fst]. rewrite foldl_optional_len. rewrite Hcol.
    set (col := timestamp_cells comb c).
    set (ts := to_datetime col <$> col).
    assert (length ts = length (df_rows c)) as Hlen.
    { subst ts col. rewrite length_fmap. unfold timestamp_cells.
      fold c' cme. rewrite Hsrc.
      apply (Hcols (src, "timestamp")), source_of_elem, Hsrc. }
    unfold frame_set, frame_filter. cbn [f_len f_cols].
    rewrite length_fmap, count_notna.
    rewrite <- Hlen, <- (count_split ts).
    case_bool_decide; reflexivity.
Qed.

(* ---------------------------------------------------------------- *)
(** ** The loop over the chunks *)
(* ---------------------------------------------------------------- *)

(** Projections of the state after the calls on the connection, and
    nothing else unfolded. *)
Ltac state_simpl :=
  cbn [db total_inserted stdout committed pending connection calls
       with_db print executemany_ok executemany_fail commit commit_fail
       rollback close get_connection fst snd].

Lemma dropped_total_snoc out m :
  dropped_total (out ++ [m]) =
  dropped_total out + match m with MsgDropped n => n | _ => 0 end.
Proof.
  unfold dropped_total. rewrite omap_app, sum_list_with_app.
  destruct m; simpl; lia.
Qed.

Lemma note_dropped_spec comb c st :
  db (note_dropped comb c st) = db st /\
  total_inserted (note_dropped comb c st) = total_inserted st /\
  dropped_total (stdout (note_dropped comb c st)) =
  dropped_total (stdout st)
  + (chunk_before comb c - f_len (chunk_frame comb c)).
Proof.
  unfold note_dropped. cbn zeta.
  destruct (Nat.ltb_spec (f_len (chunk_frame comb c)) (chunk_before comb c)).
  - state_simpl. rewrite dropped_total_snoc. auto.
  - repeat split; lia.
Qed.

(** Whatever the storage does, a chunk leaves the connection as it found
    it, never closes it, and adds to the committed rows exactly the rows
    it adds to the running total. *)
Lemma process_chunk_inv w sid path comb idx c st st' r :
  process_chunk w sid path comb idx c st = (st', r) ->
  connection (db st') = connection (db st) /\
  (Close ∈ calls (db st') -> Close ∈ calls (db st)) /\
  (pending (db st) = [] ->
   pending (db st') = [] /\
   exists rows, committed (db st') = committed (db st) ++ rows /\
                total_inserted st' = total_inserted st + length rows).
Proof.
  destruct (chunk_has_timestamp comb c) eqn:Hts.
  - rewrite (process_chunk_unfold _ _ _ _ _ _ _ Hts). cbn zeta.
    destruct (note_dropped_spec comb c st) as (Hdb & Htot & _).
    assert (forall x l, x ∈ l ++ [Rollback] -> x = Close -> Close ∈ l) as Hrb.
    { intros x l [H | H%list_elem_of_singleton]%elem_of_app E; subst;
        [assumption | discriminate]. }
    destruct (w_storage w idx (chunk_rows sid comb c)) as [|k e|e];
      intros Hrun; apply pair_equal_spec in Hrun as [<- <-]; state_simpl;
      rewrite ?Hdb, ?Htot.
    + split; [reflexivity|]. split.
      * rewrite !elem_of_app, !list_elem_of_singleton.
        intros [[H | [=]] | [=]]. exact H.
      * intros ->. split; [reflexivity|].
        exists (chunk_rows sid comb c). split; reflexivity.
    + split; [reflexivity|]. split.
      * intros H. apply Hrb in H; [|reflexivity].
        apply elem_of_app in H as [H | [=]%list_elem_of_singleton]. exact H.
      * intros _. split; [reflexivity|]. exists [].
        rewrite app_nil_r. cbn [length]. auto.
    + split; [reflexivity|]. split.
      * intros H. apply Hrb in H; [|reflexivity].
        apply elem_of_app in H as [H | [=]%list_elem_of_singleton].
        apply elem_of_app in H as [H | [=]%list_elem_of_singleton]. exact H.
      * intros _. split; [reflexivity|]. exists [].
        rewrite app_nil_r. cbn [length]. auto.
  - rewrite (process_chunk_no_timestamp _ _ _ _ _ _ _ Hts). intros [= <- <-].
    split; [reflexivity|]. split; [auto|]. intros ->. split; [reflexivity|].
    exists []. rewrite app_nil_r. cbn [length]. auto.
Qed.

Lemma for_chunks_inv w sid path comb chunks idx st st' r :
  for_chunks w sid path comb idx chunks st = (st', r) ->
  connection (db st') = connection (db st) /\
  (Close ∈ calls (db st') -> Close ∈ calls (db st)) /\
  (pending (db st) = [] ->
   pending (db st') = [] /\
   exists rows, committed (db st') = committed (db st) ++ rows /\
                total_inserted st' = total_inserted st + length rows).
Proof.
  revert idx st. induction chunks as [|c chunks IH]; intros idx st;
    cbn [for_chunks].
  - intros [= <- <-]. split; [reflexivity|]. split; [auto|].
    intros ->. split; [reflexivity|]. exists []. rewrite app_nil_r.
    cbn [length]. auto.
  - destruct (process_chunk w sid path comb idx c st) as [st1 r1] eqn:H1.
    destruct (process_chunk_inv _ _ _ _ _ _ _ _ _ H1) as (Hc1 & Hcl1 & Hp1).
    destruct r1 as [[]|e].
    + intros H. destruct (IH _ _ H) as (Hc & Hcl & Hp).
      split; [congruence|]. split; [auto|]. intros Hpend.
      destruct (Hp1 Hpend) as (Hpend1 & rows1 & Hcom1 & Htot1).
      destruct (Hp Hpend1) as (Hpend' & rows & Hcom & Htot).
      split; [assumption|]. exists (rows1 ++ rows).
      rewrite Hcom, Hcom1, Htot, Htot1, length_app, app_assoc. split; [auto | lia].
    + intros [= <- <-]. auto.
Qed.

Lemma for_chunks_app w sid path comb pre rest idx st :
  for_chunks w sid path comb idx (pre ++ rest) st =
  match for_chunks w sid path comb idx pre st with
  | (st', Return _) => for_chunks w sid path comb (idx + length pre) rest st'
  | (st', Raise e) => (st', Raise e)
  end.
Proof.
  revert idx st. induction pre as [|c pre IH]; intros idx st;
    cbn [for_chunks app length].
  - rewrite Nat.add_0_r. reflexivity.
  - destruct (process_chunk w sid path comb idx c st) as [st1 [[]|e]];
      [|reflexivity].
    rewrite IH. replace (S idx + length pre) with (idx + S (length pre)) by lia.
    reflexivity.
Qed.

(** Chunks whose transactions are all stored: the loop ends normally and
    every row built is committed, in order. *)
Lemma for_chunks_stored w sid path comb chunks idx st :
  Forall (fun c => chunk_has_timestamp comb c = true) chunks ->
  (forall i c, chunks !! i = Some c ->
               w_storage w (idx + i) (chunk_rows sid comb c) = Stored) ->
  pending (db st) = [] ->
  exists st',
    for_chunks w sid path comb idx chunks st = (st', Return tt) /\
    committed (db st') =
      committed (db st) ++ concat (chunk_rows sid comb <$> chunks) /\
    pending (db st') = [] /\
    dropped_total (stdout st') =
      dropped_total (stdout st)
      + sum_list ((fun c => chunk_before comb c - f_len (chunk_frame comb c))
                    <$> chunks).
Proof.
  revert idx st. induction chunks as [|c chunks IH]; intros idx st Hts Hst Hp.
  - exists st. cbn [for_chunks]. csimpl. rewrite app_nil_r. auto.
  - apply Forall_cons in Hts as [Hc Hts]. cbn [for_chunks].
    rewrite (process_chunk_unfold _ _ _ _ _ _ _ Hc). cbn zeta.
    pose proof (Hst 0 c eq_refl) as H0. rewrite Nat.add_0_r in H0. rewrite H0.
    destruct (note_dropped_spec comb c st) as (Hdb & Htot & Hdrop).
    match goal with
    | |- context [for_chunks _ _ _ _ _ _ ?s] => set (st1 := s)
    end.
    destruct (IH (S idx) st1 Hts) as (st' & Hrun & Hcom & Hpend & Hd).
    + intros i c' Hi. replace (S idx + i) with (idx + S i) by lia.
      apply Hst. exact Hi.
    + reflexivity.
    + exists st'. split; [exact Hrun|]. split; [|split; [exact Hpend|]].
      * rewrite Hcom. subst st1. state_simpl. rewrite Hdb, Hp, fmap_cons.
        cbn [concat]. rewrite app_nil_l, app_assoc. reflexivity.
      * rewrite Hd. subst st1. state_simpl.
        rewrite dropped_total_snoc, Hdrop, fmap_cons.
        cbn [sum_list_with id]. lia.
Qed.

Lemma process_chunk_failed w sid path comb idx c st e :
  chunk_has_timestamp comb c = true ->
  storage_error (w_storage w idx (chunk_rows sid comb c)) = Some e ->
  pending (db st) = [] ->
  exists st',
    process_chunk w sid path comb idx c st = (st', Raise (RuntimeError e)) /\
    committed (db st') = committed (db st) /\
    pending (db st') = [] /\
    last (calls (db st')) = Some Rollback.
Proof.
  intros Hts He Hp. rewrite (process_chunk_unfold _ _ _ _ _ _ _ Hts). cbn zeta.
  destruct (note_dropped_spec comb c st) as (Hdb & _ & _).
  destruct (w_storage w idx (chunk_rows sid comb c)) as [|k e'|e'];
    cbn [storage_error] in He; [discriminate | |]; injection He as ->;
    eexists; (split; [reflexivity|]); state_simpl; rewrite Hdb, last_snoc; auto.
Qed.

(* ---------------------------------------------------------------- *)
(** ** The chunks of a file *)
(* ---------------------------------------------------------------- *)

Lemma chunks_fuel_concat {A} (n fuel : nat) (l : list A) :
  1 <= n -> length l <= fuel -> concat (chunks_fuel fuel n l) = l.
Proof.
  intros Hn. revert l. induction fuel as [|k IH]; intros l Hl.
  - destruct l; [reflexivity | simpl in Hl; lia].
  - destruct l as [|x l']; [reflexivity|].
    cbn [chunks_fuel concat]. rewrite IH.
    + apply take_drop.
    + rewrite length_drop. simpl in *. lia.
Qed.

Lemma mk_columns h (ll : list (list (list pyval))) :
  Forall (fun c => df_columns c = h) (mkDataFrame h <$> ll).
Proof. induction ll; csimpl; constructor; auto. Qed.

Lemma mk_rows h (ll : list (list (list pyval))) :
  df_rows <$> (mkDataFrame h <$> ll) = ll.
Proof. induction ll; csimpl; congruence. Qed.

Lemma chunks_of_concat {A} (n : nat) (l : list A) :
  1 <= n -> concat (chunks_of n l) = l.
Proof. intros Hn. apply chunks_fuel_concat; [assumption | reflexivity]. Qed.

Lemma chunks_of_cons {A} (n : nat) (x : A) (l : list A) :
  exists c rest, chunks_of n (x :: l) = c :: rest.
Proof. unfold chunks_of. cbn [length chunks_fuel]. eauto. Qed.

Lemma read_csv_columns f n chunks :
  read_csv f n = Return chunks ->
  Forall (fun c => df_columns c = csv_header f) chunks.
Proof.
  unfold read_csv. destruct (n <? 1)%Z; [discriminate|].
  destruct (csv_header f) as [|h hs] eqn:Hh; [discriminate|].
  destruct (csv_rows f) as [|r rs]; intros H; injection H as <-.
  - repeat constructor.
  - exact (mk_columns (h :: hs) (chunks_of (Z.to_nat n) (r :: rs))).
Qed.

Lemma read_csv_chunks f n :
  (1 <= n)%Z -> csv_header f <> [] ->
  exists c rest,
    read_csv f n = Return (c :: rest) /\
    concat (df_rows <$> (c :: rest)) = csv_rows f.
Proof.
  intros Hn Hh. unfold read_csv.
  destruct (Z.ltb_spec n 1); [lia|].
  destruct (csv_header f) as [|h hs]; [congruence|].
  destruct (csv_rows f) as [|r rs] eqn:Hrows.
  - eexists _, _. split; reflexivity.
  - pose proof (chunks_of_concat (Z.to_nat n) (r :: rs) ltac:(lia)) as Hcat.
    destruct (chunks_of_cons (Z.to_nat n) r rs) as (c & rest & Hc).
    rewrite Hc in *. exists (mkDataFrame (h :: hs) c), (mkDataFrame (h :: hs) <$> rest).
    split; [reflexivity|].
    change (mkDataFrame (h :: hs) c :: (mkDataFrame (h :: hs) <$> rest))
      with (mkDataFrame (h :: hs) <$> (c :: rest)).
    rewrite mk_rows. exact Hcat.
Qed.

Lemma chunk_has_timestamp_header comb c h :
  df_columns c = h ->
  chunk_has_timestamp comb c = has_timestamp (col_map_existing comb (strip <$> h)).
Proof. intros <-. reflexivity. Qed.

Lemma chunks_have_timestamp comb f n chunks :
  read_csv f n = Return chunks ->
  has_timestamp (col_map_existing comb (strip <$> csv_header f)) = true ->
  Forall (fun c => chunk_has_timestamp comb c = true) chunks.
Proof.
  intros Hread Hts. eapply Forall_impl; [apply (read_csv_columns _ _ _ Hread)|].
  intros c Hc. cbn beta in Hc. rewrite (chunk_has_timestamp_header comb c _ Hc).
  exact Hts.
Qed.

Lemma chunks_totals sid comb chunks :
  Forall (fun c => chunk_has_timestamp comb c = true) chunks ->
  length (concat (chunk_rows sid comb <$> chunks))
  + sum_list (unparseable comb <$> chunks)
  = length (concat (df_rows <$> chunks)) /\
  sum_list ((fun c => chunk_before comb c - f_len (chunk_frame comb c))
              <$> chunks)
  = sum_list (unparseable comb <$> chunks).
Proof.
  induction 1 as [|c chunks Hc _ [IH1 IH2]]; [split; reflexivity|].
  destruct (chunk_frame_rows comb c Hc) as [Hb Hf].
  destruct (chunk_rows_built sid comb c) as [_ Hl].
  rewrite !fmap_cons. cbn [concat sum_list_with id]. rewrite !length_app.
  split; lia.
Qed.

Lemma ingest_unfold w db_path sid path tc cm n f chunks :
  w_pd w = true -> w_files w path = Some f ->
  read_csv f n = Return chunks ->
  ingest_electrical_csv w db_path sid path tc cm n =
  match for_chunks w sid path (combined_map cm) 0 chunks
          (mkState (get_connection (w_tables w db_path)) 0 []) with
  | (st, Raise e) => (st, Raise e)
  | (st, Return _) =>
      (print (MsgDone (total_inserted st)) (with_db close st), Return PyNone)
  end.
Proof.
  intros Hpd Hf Hread. unfold ingest_electrical_csv.
  rewrite Hpd, Hf, Hread. cbn [negb]. cbv iota.
  destruct (for_chunks _ _ _ _ _ _ _) as [st [[]|e]]; reflexivity.
Qed.

(** A run either stops before it connects, on one of four errors, or
    goes through the loop over the chunks of the file. *)
Lemma ingest_cases w db_path sid path tc cm n :
  let run := ingest_electrical_csv w db_path sid path tc cm n in
  (run.1 = mkState (mkDatabase (w_tables w db_path) [] NotConnected []) 0 [] /\
   (run.2 = Raise ImportError \/ run.2 = Raise (FileNotFoundError path) \/
    run.2 = Raise EmptyDataError \/ run.2 = Raise ValueError_chunksize)) \/
  (exists f chunks, w_pd w = true /\ w_files w path = Some f /\
                    read_csv f n = Return chunks).
Proof.
  cbn zeta. unfold ingest_electrical_csv.
  destruct (w_pd w) eqn:Hpd; cbn [negb]; cbv iota; [|left; simpl; auto].
  destruct (w_files w path) as [f|] eqn:Hf; [|left; simpl; auto].
  destruct (read_csv f n) as [chunks|e] eqn:Hread; [right; eauto|].
  left. split; [reflexivity|]. simpl.
  unfold read_csv in Hread. destruct (n <? 1)%Z; [injection Hread as <-; auto|].
  destruct (csv_header f); [injection Hread as <-; auto | discriminate].
Qed.

(* ---------------------------------------------------------------- *)
(** ** The claims about the ingestion *)
(* ---------------------------------------------------------------- *)

(** C1, amended: a successful run returns no value ([None]); the rows it
    committed come after those the table held, their number is the
    running total, and that total is what the last message reports. *)
Theorem ingest_returns_none_reports_total w db_path sid path tc cm n f v :
  w_files w path = Some f ->
  NoDup (strip <$> csv_header f) ->
  (ingest_electrical_csv w db_path sid path tc cm n).2 = Return v ->
  let st := (ingest_electrical_csv w db_path sid path tc cm n).1 in
  v = PyNone /\
  exists rows,
    committed (db st) = w_tables w db_path ++ rows /\
    pending (db st) = [] /\
    total_inserted st = length rows /\
    last (stdout st) = Some (MsgDone (length rows)).
Proof.
  intros _ _ Hret. cbn zeta.
  destruct (ingest_cases w db_path sid path tc cm n)
    as [[_ [H | [H | [H | H]]]] | (f' & chunks & Hpd & Hf & Hread)];
    try (rewrite H in Hret; discriminate).
  rewrite (ingest_unfold _ _ _ _ _ _ _ _ _ Hpd Hf Hread) in *.
  destruct (for_chunks _ _ _ _ _ _ _) as [st [[]|e]] eqn:Hloop;
    [|discriminate].
  destruct (for_chunks_inv _ _ _ _ _ _ _ _ _ Hloop) as (_ & _ & Hinv).
  destruct (Hinv eq_refl) as (Hpend & rows & Hcom & Htot).
  simpl in Hret. injection Hret as <-. split; [reflexivity|].
  exists rows. simpl in *. rewrite Htot, last_snoc. auto.
Qed.

(** C2: when the transaction of a chunk fails, after the chunks before it
    were stored, the run raises [RuntimeError] with the error of the
    storage; the last call on the connection is the rollback, no row is
    pending, and the committed rows are those of the table and of the
    chunks before the failed one, nothing of the failed chunk. *)
Theorem failed_chunk_is_rolled_back w db_path sid path tc cm n f pre c post e :
  w_pd w = true ->
  w_files w path = Some f ->
  NoDup (strip <$> csv_header f) ->
  has_timestamp
    (col_map_existing (combined_map cm) (strip <$> csv_header f)) = true ->
  read_csv f n = Return (pre ++ c :: post) ->
  (forall i c', pre !! i = Some c' ->
     w_storage w i (chunk_rows sid (combined_map cm) c') = Stored) ->
  storage_error
    (w_storage w (length pre) (chunk_rows sid (combined_map cm) c)) = Some e ->
  let run := ingest_electrical_csv w db_path sid path tc cm n in
  run.2 = Raise (RuntimeError e) /\
  committed (db run.1) =
    w_tables w db_path ++ concat (chunk_rows sid (combined_map cm) <$> pre) /\
  pending (db run.1) = [] /\
  last (calls (db run.1)) = Some Rollback.
Proof.
  intros Hpd Hf _ Hts Hread Hpre Hfail. cbn zeta.
  rewrite (ingest_unfold _ _ _ _ _ _ _ _ _ Hpd Hf Hread).
  pose proof (chunks_have_timestamp _ _ _ _ Hread Hts) as Hall.
  apply Forall_app in Hall as [Hall_pre Hall_c].
  apply Forall_cons in Hall_c as [Hc _].
  rewrite for_chunks_app.
  destruct (for_chunks_stored w sid path (combined_map cm) pre 0
              (mkState (get_connection (w_tables w db_path)) 0 [])
              Hall_pre Hpre eq_refl) as (st1 & -> & Hcom & Hpend & _).
  cbn [for_chunks]. cbn [Nat.add].
  destruct (process_chunk_failed w sid path (combined_map cm) (length pre) c
              st1 e Hc Hfail Hpend) as (st2 & -> & Hcom2 & Hpend2 & Hlast).
  simpl. rewrite Hcom2, Hcom. auto.
Qed.

(** C3: when the file has a timestamp column and the storage takes every
    chunk, the run ends without an error; the rows it persists are the
    rows of the file less those whose timestamp fails to parse, and the
    messages about dropped rows add up to that number. *)
Theorem ingest_persists_parseable_rows w db_path sid path tc cm n f :
  w_pd w = true ->
  w_files w path = Some f ->
  (1 <= n)%Z ->
  NoDup (strip <$> csv_header f) ->
  has_timestamp
    (col_map_existing (combined_map cm) (strip <$> csv_header f)) = true ->
  (forall i rows, w_storage w i rows = Stored) ->
  let run := ingest_electrical_csv w db_path sid path tc cm n in
  let bad := file_unparseable (combined_map cm) f n in
  run.2 = Return PyNone /\
  bad <= length (csv_rows f) /\
  length (committed (db run.1)) =
    length (w_tables w db_path) + (length (csv_rows f) - bad) /\
  dropped_total (stdout run.1) = bad.
Proof.
  intros Hpd Hf Hn _ Hts Hstored. cbn zeta.
  assert (csv_header f <> []) as Hh.
  { intros E. rewrite E in Hts. discriminate. }
  destruct (read_csv_chunks f n Hn Hh) as (c & rest & Hread & Hrows).
  rewrite (ingest_unfold _ _ _ _ _ _ _ _ _ Hpd Hf Hread).
  pose proof (chunks_have_timestamp _ _ _ _ Hread Hts) as Hall.
  destruct (for_chunks_stored w sid path (combined_map cm) (c :: rest) 0
              (mkState (get_connection (w_tables w db_path)) 0 [])
              Hall (fun i c' _ => Hstored _ _) eq_refl)
    as (st & -> & Hcom & Hpend & Hdrop).
  destruct (chunks_totals sid (combined_map cm) (c :: rest) Hall) as [Ht1 Ht2].
  unfold file_unparseable, csv_chunks. rewrite Hread.
  rewrite Hrows in Ht1.
  cbn [db committed get_connection] in Hcom. cbn [stdout] in Hdrop.
  change (dropped_total []) with 0 in Hdrop.
  cbn [fst snd print with_db db stdout close committed].
  rewrite Hcom, length_app, dropped_total_snoc, Hdrop, Ht2.
  repeat split; lia.
Qed.

(** C4: when no header of the file resolves to the timestamp, the run
    raises the [ValueError] about the missing timestamp column on the
    first chunk: the table holds what it held, and no statement was ever
    executed on the connection. *)
Theorem missing_timestamp_raises_before_insert w db_path sid path tc cm n f :
  w_pd w = true ->
  w_files w path = Some f ->
  (1 <= n)%Z ->
  csv_header f <> [] ->
  has_timestamp
    (col_map_existing (combined_map cm) (strip <$> csv_header f)) = false ->
  let run := ingest_electrical_csv w db_path sid path tc cm n in
  run.2 = Raise (ValueError_timestamp path (strip <$> csv_header f)) /\
  committed (db run.1) = w_tables w db_path /\
  pending (db run.1) = [] /\
  calls (db run.1) = [] /\
  stdout run.1 = [].
Proof.
  intros Hpd Hf Hn Hh Hts. cbn zeta.
  destruct (read_csv_chunks f n Hn Hh) as (c & rest & Hread & _).
  rewrite (ingest_unfold _ _ _ _ _ _ _ _ _ Hpd Hf Hread).
  pose proof (read_csv_columns _ _ _ Hread) as Hcols.
  apply Forall_cons in Hcols as [Hc _].
  cbn [for_chunks].
  rewrite process_chunk_no_timestamp
    by (rewrite (chunk_has_timestamp_header _ _ _ Hc); exact Hts).
  rewrite Hc. simpl. auto.
Qed.

(** C7, as the code has it: a run that ends on the [RuntimeError] of a
    failed chunk leaves the connection open, [close] was never called. *)
Theorem persistence_error_leaves_connection_open w db_path sid path tc cm n e :
  (ingest_electrical_csv w db_path sid path tc cm n).2 = Raise (RuntimeError e) ->
  let st := (ingest_electrical_csv w db_path sid path tc cm n).1 in
  connection (db st) = Open /\ Close ∉ calls (db st).
Proof.
  intros Hret. cbn zeta.
  destruct (ingest_cases w db_path sid path tc cm n)
    as [[_ [H | [H | [H | H]]]] | (f' & chunks & Hpd & Hf & Hread)];
    try (rewrite H in Hret; discriminate).
  rewrite (ingest_unfold _ _ _ _ _ _ _ _ _ Hpd Hf Hread) in *.
  destruct (for_chunks _ _ _ _ _ _ _) as [st [[]|e']] eqn:Hloop;
    [discriminate|].
  destruct (for_chunks_inv _ _ _ _ _ _ _ _ _ Hloop) as (Hconn & Hclose & _).
  simpl in *. split; [exact Hconn|].
  intros Hin. apply Hclose in Hin. inversion Hin.
Qed.


(** C9: two calls that differ in [timestamp_col] only have the same
    outcome: the same rows committed, the same messages, the same value
    returned or error raised. *)
Theorem timestamp_col_is_ignored w db_path sid path cm n (tc1 tc2 : string) :
  ingest_electrical_csv w db_path sid path tc1 cm n =
  ingest_electrical_csv w db_path sid path tc2 cm n.
Proof. reflexivity. Qed.

(* ---------------------------------------------------------------- *)
(** ** What becomes of each row *)
(* ---------------------------------------------------------------- *)

Lemma index_of_elem c (l : list string) : c ∈ l -> is_Some (index_of c l).
Proof.
  induction l as [|x l IH]; intros Hc; [inversion Hc|]. simpl.
  destruct (String.eqb_spec x c) as [-> | Hne]; [eauto|].
  apply elem_of_cons in Hc as [-> | Hc]; [congruence|].
  destruct (IH Hc) as [i ->]. simpl. eauto.
Qed.

Lemma target_column comb c t s :
  source_of t (col_map_existing comb (strip <$> df_columns c)) = Some s ->
  getcol (strip_columns c) s = row_cell comb (df_columns c) t <$> df_rows c.
Proof.
  intros Hs. pose proof (source_of_elem _ _ _ Hs) as Hin.
  apply col_map_existing_keys in Hin. simpl in Hin.
  destruct (index_of_elem _ _ Hin) as [i Hi].
  unfold getcol. simpl. rewrite Hi.
  apply list_fmap_ext. intros j row _. unfold row_cell. cbn zeta.
  rewrite Hs, Hi. reflexivity.
Qed.

Lemma keep_rows_fmap {A B} (f : A -> B) mask (l : list A) :
  keep_rows mask (f <$> l) = f <$> keep_rows mask l.
Proof.
  revert l. induction mask as [|[] mask IH]; intros [|x l]; csimpl;
    rewrite ?IH; reflexivity.
Qed.

Lemma keep_rows_length {A} mask (l : list A) :
  length mask = length l ->
  length (keep_rows mask l) = length (filter (fun b => b = true) mask).
Proof.
  revert l. induction mask as [|[] mask IH]; intros [|x l] Hl; csimpl in *;
    try lia; filter_step; rewrite ?IH by lia; reflexivity.
Qed.

Lemma omap_keep {A R} (g : A -> option string) (F : A -> string -> R) rows :
  omap (fun r => F r <$> g r) rows =
  (fun r => F r (default "" (g r)))
    <$> keep_rows (notna <$> (g <$> rows)) rows.
Proof.
  induction rows as [|r rows IH]; csimpl; [reflexivity|].
  destruct (g r) as [iso|] eqn:E; csimpl; rewrite ?E, IH; reflexivity.
Qed.

Lemma fmap_seq_lookup {A B} (H : option A -> B) (K : list A) :
  (fun i => H (K !! i)) <$> seq 0 (length K) = (fun x => H (Some x)) <$> K.
Proof.
  induction K as [|x K IH]; csimpl; [reflexivity|]. f_equal.
  rewrite <- IH, <- fmap_S_seq, <- list_fmap_compose. reflexivity.
Qed.

Lemma foldl_optional_lookup df l t :
  f_cols (foldl (fun df col =>
                   match f_cols df !! col with
                   | Some _ => df
                   | None => frame_set_scalar df col PyNone
                   end) df l) !! t =
  match f_cols df !! t with
  | Some c => Some c
  | None => if bool_decide (t ∈ l)
            then Some (replicate (f_len df) PyNone) else None
  end.
Proof.
  revert df. induction l as [|c0 l IH]; intros df; simpl.
  - destruct (f_cols df !! t); reflexivity.
  - rewrite IH.
    set (df' := match f_cols df !! c0 with
                | Some _ => df
                | None => frame_set_scalar df c0 PyNone
                end).
    assert (f_len df' = f_len df) as Hlen
      by (subst df'; destruct (f_cols df !! c0); reflexivity).
    rewrite Hlen.
    destruct (decide (c0 = t)) as [-> | Hne].
    + rewrite (bool_decide_eq_true_2 (t ∈ t :: l)) by left.
      subst df'. destruct (f_cols df !! t) as [col|] eqn:Ht.
      * rewrite Ht. reflexivity.
      * unfold frame_set_scalar. cbn [f_cols].
        rewrite lookup_insert_eq. reflexivity.
    + assert (f_cols df' !! t = f_cols df !! t) as ->.
      { subst df'. destruct (f_cols df !! c0); [reflexivity|].
        unfold frame_set_scalar. cbn [f_cols].
        apply lookup_insert_ne. assumption. }
      destruct (f_cols df !! t); [reflexivity|].
      rewrite (bool_decide_ext (t ∈ c0 :: l) (t ∈ l)); [reflexivity|].
      rewrite elem_of_cons. split; [intros [? | ?]; [congruence | assumption] | auto].
Qed.

Lemma safe_float_returned x :
  _safe_float x = Return (returned None (_safe_float x)).
Proof. destruct (safe_float_returns x) as [r ->]. reflexivity. Qed.

Lemma build_rows_eq sid df idxs :
  build_rows sid df idxs =
  Return ((fun i =>
             mkReading sid (row_get df i "timestamp")
               (returned None (_safe_float (row_get df i "power_kw")))
               (returned None (_safe_float (row_get df i "voltage_v")))
               (returned None (_safe_float (row_get df i "current_a")))
               (returned None (_safe_float (row_get df i "energy_kwh")))
               (_safe_str (row_get df i "status"))) <$> idxs).
Proof.
  induction idxs as [|i idxs IH]; [reflexivity|].
  cbn [build_rows]. rewrite IH. unfold build_row.
  rewrite (safe_float_returned (row_get df i "power_kw")).
  rewrite (safe_float_returned (row_get df i "voltage_v")).
  rewrite (safe_float_returned (row_get df i "current_a")).
  rewrite (safe_float_returned (row_get df i "energy_kwh")).
  reflexivity.
Qed.

Lemma timestamps_kept {A} (g : A -> option string) (rows : list A) :
  PyStr <$> omap id (g <$> rows) =
  (fun r => PyStr (default "" (g r)))
    <$> keep_rows (notna <$> (g <$> rows)) rows.
Proof.
  induction rows as [|r rows IH]; csimpl; [reflexivity|].
  destruct (g r) as [iso|] eqn:E; csimpl; rewrite ?E, IH; reflexivity.
Qed.

Lemma optional_not_timestamp t : t ∈ optional_targets -> t <> "timestamp".
Proof.
  unfold optional_targets. rewrite !elem_of_cons.
  intros [-> | [-> | [-> | [-> | [-> | H]]]]]; [discriminate .. | inversion H].
Qed.

(** The columns of the frame of a chunk, over the rows that are kept. *)
Lemma chunk_frame_columns comb c :
  chunk_has_timestamp comb c = true ->
  let g := fun row =>
    to_datetime (timestamp_cells comb c)
                (row_cell comb (df_columns c) "timestamp" row) in
  let K := keep_rows (notna <$> (g <$> df_rows c)) (df_rows c) in
  f_len (chunk_frame comb c) = length K /\
  frame_get (chunk_frame comb c) "timestamp"
  = (fun r => PyStr (default "" (g r))) <$> K /\
  forall t, t ∈ optional_targets ->
    frame_get (chunk_frame comb c) t = row_cell comb (df_columns c) t <$> K.
Proof.
  unfold chunk_has_timestamp. intros Hts. cbn zeta.
  set (c' := strip_columns c) in *.
  set (cme := col_map_existing comb (df_columns c')) in *.
  set (rows := df_rows c).
  destruct (has_timestamp_source cme Hts) as [src Hsrc].
  set (df1 := foldl (fun df kv => frame_set df kv.2 (getcol c' kv.1))
                    frame_empty cme).
  assert (forall t, f_cols df1 !! t =
            match source_of t cme with
            | Some s => Some (row_cell comb (df_columns c) t <$> rows)
            | None => None
            end) as H1.
  { intros t. subst df1. rewrite foldl_frame_set_lookup.
    destruct (source_of t cme) as [s|] eqn:Hs; [|apply lookup_empty].
    f_equal. exact (target_column comb c t s Hs). }
  assert (timestamp_cells comb c
          = row_cell comb (df_columns c) "timestamp" <$> rows) as Hcol.
  { unfold timestamp_cells. fold c' cme. rewrite Hsrc.
    exact (target_column comb c "timestamp" src Hsrc). }
  assert (frame_get df1 "timestamp" = timestamp_cells comb c) as Hget.
  { unfold frame_get. rewrite H1, Hsrc, Hcol. reflexivity. }
  set (g := fun row => to_datetime (timestamp_cells comb c)
                         (row_cell comb (df_columns c) "timestamp" row)).
  assert (to_datetime (timestamp_cells comb c) <$> timestamp_cells comb c
          = g <$> rows) as Hts_eq.
  { rewrite Hcol at 2. rewrite <- list_fmap_compose. reflexivity. }
  set (mask := notna <$> (g <$> rows)).
  set (K := keep_rows mask rows).
  assert (length K = length (filter (fun b => b = true) mask)) as HlenK.
  { apply keep_rows_length. subst mask. rewrite !length_fmap. reflexivity. }
  unfold chunk_frame. fold c' cme. unfold df_to_insert. cbn zeta. cbn [fst].
  fold df1. rewrite Hget, Hts_eq. fold mask.
  set (df3 := frame_set (frame_filter mask df1) "timestamp"
                        (PyStr <$> omap id (g <$> rows))).
  assert (f_len df3 = length K) as Hlen3.
  { subst df3. unfold frame_set, frame_filter. cbn [f_len f_cols].
    rewrite length_fmap, count_notna. fold mask.
    case_bool_decide; symmetry; exact HlenK. }
  assert (forall t, f_cols df3 !! t =
            if decide (t = "timestamp")
            then Some ((fun r => PyStr (default "" (g r))) <$> K)
            else match source_of t cme with
                 | Some s => Some (row_cell comb (df_columns c) t <$> K)
                 | None => None
                 end) as H3.
  { intros t. subst df3. unfold frame_set, frame_filter. cbn [f_cols].
    destruct (decide (t = "timestamp")) as [-> | Hne].
    - rewrite lookup_insert_eq, timestamps_kept. reflexivity.
    - rewrite lookup_insert_ne by congruence.
      rewrite lookup_fmap, H1. destruct (source_of t cme); [|reflexivity].
      simpl. rewrite keep_rows_fmap. reflexivity. }
  split; [|split].
  - rewrite foldl_optional_len. exact Hlen3.
  - unfold frame_get. rewrite foldl_optional_lookup, H3.
    rewrite decide_True by reflexivity. reflexivity.
  - intros t Ht. unfold frame_get. rewrite foldl_optional_lookup, H3.
    rewrite decide_False by (apply optional_not_timestamp, Ht).
    destruct (source_of t cme) as [s|] eqn:Hs; [reflexivity|].
    rewrite bool_decide_eq_true_2 by exact Ht. rewrite Hlen3.
    cbn [default from_option id]. symmetry. apply const_fmap. intros row. unfold row_cell. cbn zeta.
    fold c'. change (strip <$> df_columns c) with (df_columns c').
    fold cme. rewrite Hs. reflexivity.
Qed.

(** Each row of a chunk whose timestamp parses becomes one reading, in
    the order of the file: the given system, the timestamp as text, each
    numeric field the cell under the header mapped to it as [_safe_float]
    reads it, the status the cell as [_safe_str] reads it, and the absent
    value for a field no header is mapped to.  A row whose timestamp does
    not parse becomes nothing. *)
Theorem chunk_rows_are_row_readings sid comb c :
  chunk_has_timestamp comb c = true ->
  chunk_rows sid comb c =
  omap (row_reading sid comb (df_columns c) (timestamp_cells comb c))
       (df_rows c).
Proof.
  intros Hts.
  destruct (chunk_frame_columns comb c Hts) as (Hlen & Hcol & Hopt).
  cbn zeta in *.
  set (g := fun row => to_datetime (timestamp_cells comb c)
                         (row_cell comb (df_columns c) "timestamp" row)) in *.
  set (K := keep_rows (notna <$> (g <$> df_rows c)) (df_rows c)) in *.
  unfold chunk_rows. cbn zeta. rewrite build_rows_eq. unfold row_get.
  rewrite Hcol, Hlen.
  rewrite (Hopt "power_kw"), (Hopt "voltage_v"), (Hopt "current_a"),
    (Hopt "energy_kwh"), (Hopt "status")
    by (apply list_elem_of_In; simpl; auto 10).
  set (F := fun (row : list pyval) (iso : string) =>
              mkReading sid (PyStr iso)
                (returned None
                   (_safe_float (row_cell comb (df_columns c) "power_kw" row)))
                (returned None
                   (_safe_float (row_cell comb (df_columns c) "voltage_v" row)))
                (returned None
                   (_safe_float (row_cell comb (df_columns c) "current_a" row)))
                (returned None
                   (_safe_float (row_cell comb (df_columns c) "energy_kwh" row)))
                (_safe_str (row_cell comb (df_columns c) "status" row))).
  transitivity ((fun r => F r (default "" (g r))) <$> K);
    [|symmetry; exact (omap_keep g F (df_rows c))].
  subst F. cbn beta.
  set (H := fun o : option (list pyval) =>
              mkReading sid
                (default PyNone ((fun r => PyStr (default "" (g r))) <$> o))
                (returned None (_safe_float (default PyNone
                   (row_cell comb (df_columns c) "power_kw" <$> o))))
                (returned None (_safe_float (default PyNone
                   (row_cell comb (df_columns c) "voltage_v" <$> o))))
                (returned None (_safe_float (default PyNone
                   (row_cell comb (df_columns c) "current_a" <$> o))))
                (returned None (_safe_float (default PyNone
                   (row_cell comb (df_columns c) "energy_kwh" <$> o))))
                (_safe_str (default PyNone
                   (row_cell comb (df_columns c) "status" <$> o)))).
  transitivity ((fun i => H (K !! i)) <$> seq 0 (length K)).
  - apply list_fmap_ext. intros j i _. subst H. cbn beta.
    rewrite !list_lookup_fmap. reflexivity.
  - exact (fmap_seq_lookup H K).
Qed.

Lemma dict_set_entry {V} (k : string) (v : V) d kv :
  kv ∈ dict_set k v d -> kv = (k, v) \/ kv ∈ d.
Proof.
  induction d as [|[k' v'] d IH]; simpl.
  - intros ->%list_elem_of_singleton. auto.
  - destruct (String.eqb k' k).
    + intros [-> | H]%elem_of_cons; [auto|]. right. apply elem_of_cons. auto.
    + intros [-> | H]%elem_of_cons; [right; apply elem_of_cons; auto|].
      destruct (IH H) as [? | ?]; [auto|]. right. apply elem_of_cons. auto.
Qed.

Lemma col_map_existing_resolved comb cols kv :
  kv ∈ col_map_existing comb cols ->
  kv.1 ∈ cols /\ resolve comb kv.1 = Some kv.2.
Proof.
  unfold col_map_existing.
  assert (forall acc, kv ∈ foldl (fun acc c =>
                                    match resolve comb c with
                                    | Some t => dict_set c t acc
                                    | None => acc
                                    end) acc cols ->
                      kv ∈ acc \/ (kv.1 ∈ cols /\ resolve comb kv.1 = Some kv.2))
    as H.
  { induction cols as [|c cols IH]; intros acc; simpl; [auto|].
    intros [Hacc | [Hin Hr]]%IH; [|right; split; [right|]; assumption].
    destruct (resolve comb c) as [t|] eqn:Hres; [|auto].
    apply dict_set_entry in Hacc as [-> | ?]; [|auto].
    right. split; [left | exact Hres]. }
  intros [Hnil | ?]%H; [inversion Hnil | assumption].
Qed.

Lemma source_of_none t cme :
  (forall kv, kv ∈ cme -> kv.2 <> t) -> source_of t cme = None.
Proof.
  induction cme as [|[src t'] r IH]; intros Hall; simpl; [reflexivity|].
  rewrite IH by (intros kv Hkv; apply Hall; right; assumption).
  destruct (String.eqb_spec t' t) as [-> | _]; [|reflexivity].
  destruct (Hall (src, t)); [left | reflexivity].
Qed.

(** A target no label of the chunk resolves to has no source column. *)
Lemma unresolved_target_has_no_source comb columns t :
  (forall label, label ∈ columns -> resolve comb (strip label) <> Some t) ->
  source_of t (col_map_existing comb (strip <$> columns)) = None.
Proof.
  intros Hnone. apply source_of_none. intros [src t'] Hkv Ht. simpl in Ht.
  subst t'. apply col_map_existing_resolved in Hkv as [Hin Hres]. simpl in *.
  apply list_elem_of_fmap in Hin as (label & -> & Hlabel).
  exact (Hnone label Hlabel Hres).
Qed.

(** When no label of a chunk resolves to one of the optional targets,
    that field is absent in every reading built from the chunk. *)
Theorem unmapped_target_is_absent sid comb c r :
  chunk_has_timestamp comb c = true ->
  r ∈ chunk_rows sid comb c ->
  let unmapped t :=
    forall label, label ∈ df_columns c -> resolve comb (strip label) <> Some t in
  (unmapped "power_kw" -> r_power_kw r = None) /\
  (unmapped "voltage_v" -> r_voltage_v r = None) /\
  (unmapped "current_a" -> r_current_a r = None) /\
  (unmapped "energy_kwh" -> r_energy_kwh r = None) /\
  (unmapped "status" -> r_status r = None).
Proof.
  intros Hts Hr. cbn zeta. rewrite (chunk_rows_are_row_readings _ _ _ Hts) in Hr.
  apply list_elem_of_omap in Hr as (row & _ & Hrow).
  unfold row_reading in Hrow. cbn zeta in Hrow.
  destruct (to_datetime _ _) as [iso|]; [|discriminate].
  simpl in Hrow. injection Hrow as <-. cbn [r_power_kw r_voltage_v r_current_a
    r_energy_kwh r_status].
  repeat split; intros Hun; unfold row_cell; cbn zeta;
    rewrite (unresolved_target_has_no_source _ _ _ Hun); reflexivity.
Qed.



(* ---------------------------------------------------------------- *)
(** ** What a whole run commits *)
(* ---------------------------------------------------------------- *)




(** Whatever the storage does, the rows a run commits are whole chunks:
    those of the first [k] chunks of the file, in order, for some [k];
    nothing is left pending, and [k] counts all the chunks when the run
    ends normally. *)
Lemma for_chunks_prefix w sid path comb chunks idx st st' r :
  for_chunks w sid path comb idx chunks st = (st', r) ->
  pending (db st) = [] ->
  exists k, k <= length chunks /\
    committed (db st') =
      committed (db st) ++ concat (chunk_rows sid comb <$> take k chunks) /\
    pending (db st') = [] /\
    (forall u, r = Return u -> k = length chunks).
Proof.
  revert idx st. induction chunks as [|c chunks IH]; intros idx st Hrun Hp.
  - cbn [for_chunks] in Hrun. injection Hrun as <- <-. exists 0.
    cbn [firstn length]. csimpl. rewrite app_nil_r. auto.
  - cbn [for_chunks] in Hrun.
    destruct (chunk_has_timestamp comb c) eqn:Hts.
    + rewrite (process_chunk_unfold _ _ _ _ _ _ _ Hts) in Hrun. cbn zeta in Hrun.
      destruct (note_dropped_spec comb c st) as (Hdb & _ & _).
      destruct (w_storage w idx (chunk_rows sid comb c)) as [|j e|e].
      * apply IH in Hrun; [|reflexivity].
        destruct Hrun as (k & Hk & Hcom & Hpend & Hret).
        exists (S k). split; [cbn [length]; lia|].
        split; [|split; [exact Hpend|]].
        -- rewrite Hcom. state_simpl. rewrite Hdb, Hp, app_nil_l.
           cbn [firstn]. rewrite fmap_cons. cbn [concat].
           rewrite <- app_assoc. reflexivity.
        -- intros u Hu. cbn [length]. f_equal. exact (Hret u Hu).
      * injection Hrun as <- <-. exists 0. state_simpl.
        cbn [firstn length]. csimpl. rewrite Hdb, app_nil_r.
        split; [lia|]. split; [reflexivity|]. split; [reflexivity|].
        intros u Hu. discriminate.
      * injection Hrun as <- <-. exists 0. state_simpl.
        cbn [firstn length]. csimpl. rewrite Hdb, app_nil_r.
        split; [lia|]. split; [reflexivity|]. split; [reflexivity|].
        intros u Hu. discriminate.
    + rewrite (process_chunk_no_timestamp _ _ _ _ _ _ _ Hts) in Hrun.
      injection Hrun as <- <-. exists 0. cbn [firstn length]. csimpl.
      rewrite app_nil_r.
      split; [lia|]. split; [reflexivity|]. split; [exact Hp|].
      intros u Hu. discriminate.
Qed.

Theorem committed_rows_are_whole_chunks w db_path sid path tc cm n f chunks :
  w_pd w = true ->
  w_files w path = Some f ->
  read_csv f n = Return chunks ->
  let run := ingest_electrical_csv w db_path sid path tc cm n in
  exists k, k <= length chunks /\
    committed (db run.1) =
      w_tables w db_path
      ++ concat (chunk_rows sid (combined_map cm) <$> take k chunks) /\
    pending (db run.1) = [] /\
    (forall v, run.2 = Return v -> k = length chunks).
Proof.
  intros Hpd Hf Hread. cbn zeta.
  rewrite (ingest_unfold _ _ _ _ _ _ _ _ _ Hpd Hf Hread).
  destruct (for_chunks _ _ _ _ _ _ _) as [st r] eqn:Hloop.
  destruct (for_chunks_prefix _ _ _ _ _ _ _ _ _ Hloop eq_refl)
    as (k & Hk & Hcom & Hpend & Hret).
  exists k. split; [exact Hk|].
  destruct r as [u|e]; simpl in *.
  - split; [exact Hcom|]. split; [reflexivity|]. intros _ _. eauto.
  - split; [exact Hcom|]. split; [exact Hpend|]. intros v Hv. discriminate.
Qed.



(** Cleaning a status that is already clean changes nothing. *)
Theorem safe_str_idempotent (x : pyval) (t : string) :
  _safe_str x = Some t -> _safe_str (PyStr t) = Some t.
Proof.
  intros Hx.
  assert (t = strip (py_str x) /\ t <> "") as [-> Hne].
  { destruct x; simpl in Hx; try discriminate;
      match type of Hx with
      | (if String.eqb ?s "" then _ else _) = _ =>
          destruct (String.eqb_spec s ""); [discriminate|];
          injection Hx as <-; auto
      end. }
  unfold _safe_str. cbn [py_str].
  pose proof (strip_of_trimmed "" "" _ eq_refl eq_refl
                (strip_trimmed (py_str x))) as Hs.
  rewrite app_empty_r in Hs. simpl in Hs. rewrite Hs.
  destruct (String.eqb_spec (strip (py_str x)) ""); [contradiction | reflexivity].
Qed.

(** Whitespace around a text changes neither coercion. *)
Theorem coercions_ignore_surrounding_whitespace (ws1 ws2 s : string) :
  all_space ws1 = true -> all_space ws2 = true ->
  _safe_float (PyStr (ws1 +:+ s +:+ ws2)) = _safe_float (PyStr s) /\
  _safe_str (PyStr (ws1 +:+ s +:+ ws2)) = _safe_str (PyStr s).
Proof.
  intros H1 H2.
  assert (strip (ws1 +:+ s +:+ ws2) = strip s) as Hs.
  { destruct (strip_spec s) as (a & b & Ha & Hb & Es & Ht).
    rewrite Es at 1. rewrite !app_assoc_s.
    rewrite <- (app_assoc_s ws1 a). rewrite <- (app_assoc_s (strip s)).
    rewrite (app_assoc_s (strip s) b ws2).
    apply strip_of_trimmed; [| | exact Ht];
      rewrite all_space_forall, forall_chars_app, <- !all_space_forall;
      [rewrite H1, Ha | rewrite Hb, H2]; reflexivity. }
  split.
  - rewrite !safe_float_text, Hs. reflexivity.
  - unfold _safe_str. cbn [py_str]. rewrite Hs. reflexivity.
Qed.

End Ingestion.

(* ================================================================== *)
(** * The routine on small files *)
(* ================================================================== *)

Import PyString Shape.

Abbreviation demo_run f storage col_mappings chunk_size :=
  (ingest_electrical_csv Demo.repr Demo.to_datetime (Demo.world_of f storage)
     "solar.db" 7 "data.csv" "timestamp" col_mappings chunk_size).

Lemma nodup_by_computation (l : list string) :
  bool_decide (NoDup l) = true -> NoDup l.
Proof. intros H. apply bool_decide_eq_true in H. exact H. Qed.

(** The scenario of the specification: headers [datetime,power,voltage],
    three rows, one date that does not parse. *)
Example three_rows_run :
  demo_run Demo.three_rows Demo.always_stored None 1000 =
  (mkState
     (mkDatabase
        [ mkReading 7 (PyStr "2024-01-01 00:00:00")
            (Some (FFinite false 15 (-1))) (Some (FFinite false 230 0))
            None None None;
          mkReading 7 (PyStr "2024-01-01 00:10:00")
            None (Some FNan) None None None ]
        [] Closed [ExecuteMany 2; Commit; Close])
     2 [MsgDropped 1; MsgInserted 2 2; MsgDone 2],
   Return PyNone).
Proof. vm_compute. reflexivity. Qed.

(** Chunks of two rows out of five: three transactions, of 2, 2 and 1
    rows. *)
Example five_rows_chunks :
  read_csv Demo.five_rows 2 =
  Return [Demo.five_chunk0; Demo.five_chunk1; Demo.five_chunk2] /\
  calls (db (demo_run Demo.five_rows Demo.always_stored None 2).1) =
  [ExecuteMany 2; Commit; ExecuteMany 2; Commit; ExecuteMany 1; Commit; Close].
Proof. split; vm_compute; reflexivity. Qed.

(** C1, as stated, fails: the run above inserts two rows and returns
    [None], not the count. *)
Lemma returned_value_is_not_the_total :
  let run := demo_run Demo.three_rows Demo.always_stored None 1000 in
  total_inserted run.1 = 2 /\
  run.2 = Return PyNone /\
  run.2 <> Return (PyInt (Z.of_nat (total_inserted run.1))).
Proof. rewrite three_rows_run. repeat split. discriminate. Qed.

Lemma ingest_returns_none_reports_total_witness :
  let st := (demo_run Demo.three_rows Demo.always_stored None 1000).1 in
  PyNone = PyNone /\
  exists rows,
    committed (db st) = [] ++ rows /\
    pending (db st) = [] /\
    total_inserted st = length rows /\
    last (stdout st) = Some (MsgDone (length rows)).
Proof.
  apply (ingest_returns_none_reports_total Demo.repr Demo.to_datetime
           (Demo.world_of Demo.three_rows Demo.always_stored)
           "solar.db" 7 "data.csv" "timestamp" None 1000 Demo.three_rows PyNone).
  - reflexivity.
  - apply nodup_by_computation. vm_compute. reflexivity.
  - vm_compute. reflexivity.
Defined.

Lemma failed_chunk_is_rolled_back_witness :
  let run := demo_run Demo.five_rows Demo.second_fails None 2 in
  run.2 = Raise (RuntimeError "disk I/O error") /\
  committed (db run.1) =
    [] ++ concat (chunk_rows Demo.repr Demo.to_datetime 7 (combined_map None)
                    <$> [Demo.five_chunk0]) /\
  pending (db run.1) = [] /\
  last (calls (db run.1)) = Some Rollback.
Proof.
  apply (failed_chunk_is_rolled_back Demo.repr Demo.to_datetime
           (Demo.world_of Demo.five_rows Demo.second_fails)
           "solar.db" 7 "data.csv" "timestamp" None 2 Demo.five_rows
           [Demo.five_chunk0] Demo.five_chunk1 [Demo.five_chunk2]
           "disk I/O error").
  - reflexivity.
  - reflexivity.
  - apply nodup_by_computation. vm_compute. reflexivity.
  - vm_compute. reflexivity.
  - vm_compute. reflexivity.
  - intros [|i] c' H; [reflexivity | discriminate H].
  - reflexivity.
Defined.

(** The two rows of the first transaction stay committed. *)
Example second_transaction_fails :
  demo_run Demo.five_rows Demo.second_fails None 2 =
  (mkState
     (mkDatabase
        [ mkReading 7 (PyStr "2024-01-01 00:00:00")
            (Some (FFinite false 10 (-1))) None None None None;
          mkReading 7 (PyStr "2024-01-01 00:10:00")
            (Some (FFinite false 20 (-1))) None None None None ]
        [] Open [ExecuteMany 2; Commit; ExecuteMany 2; Rollback])
     2 [MsgInserted 2 2],
   Raise (RuntimeError "disk I/O error")).
Proof. vm_compute. reflexivity. Qed.

Lemma ingest_persists_parseable_rows_witness :
  let run := demo_run Demo.three_rows Demo.always_stored None 1000 in
  let bad := file_unparseable Demo.to_datetime (combined_map None)
               Demo.three_rows 1000 in
  run.2 = Return PyNone /\
  bad <= length (csv_rows Demo.three_rows) /\
  length (committed (db run.1)) =
    length (@nil reading) + (length (csv_rows Demo.three_rows) - bad) /\
  dropped_total (stdout run.1) = bad.
Proof.
  apply (ingest_persists_parseable_rows Demo.repr Demo.to_datetime
           (Demo.world_of Demo.three_rows Demo.always_stored)
           "solar.db" 7 "data.csv" "timestamp" None 1000 Demo.three_rows).
  - reflexivity.
  - reflexivity.
  - lia.
  - apply nodup_by_computation. vm_compute. reflexivity.
  - vm_compute. reflexivity.
  - intros i rows. reflexivity.
Defined.

Lemma missing_timestamp_raises_before_insert_witness :
  let run := demo_run Demo.no_time_axis Demo.always_stored None 1000 in
  run.2 = Raise (ValueError_timestamp "data.csv"
                   (strip <$> csv_header Demo.no_time_axis)) /\
  committed (db run.1) = [] /\
  pending (db run.1) = [] /\
  calls (db run.1) = [] /\
  stdout run.1 = [].
Proof.
  apply (missing_timestamp_raises_before_insert Demo.repr Demo.to_datetime
           (Demo.world_of Demo.no_time_axis Demo.always_stored)
           "solar.db" 7 "data.csv" "timestamp" None 1000 Demo.no_time_axis).
  - reflexivity.
  - reflexivity.
  - lia.
  - discriminate.
  - vm_compute. reflexivity.
Defined.

Lemma persistence_error_leaves_connection_open_witness :
  let st := (demo_run Demo.five_rows Demo.second_fails None 2).1 in
  connection (db st) = Open /\ Close ∉ calls (db st).
Proof.
  apply (persistence_error_leaves_connection_open Demo.repr Demo.to_datetime
           (Demo.world_of Demo.five_rows Demo.second_fails)
           "solar.db" 7 "data.csv" "timestamp" None 2 "disk I/O error").
  vm_compute. reflexivity.
Defined.

(* ================================================================== *)
(** * The coercions on small inputs *)
(* ================================================================== *)

Example safe_float_examples :
  _safe_float Demo.repr PyNone = Return None /\
  _safe_float Demo.repr (PyStr "") = Return None /\
  _safe_float Demo.repr (PyStr " NaN ") = Return None /\
  _safe_float Demo.repr (PyStr "NULL") = Return None /\
  _safe_float Demo.repr (PyStr "None") = Return None /\
  _safe_float Demo.repr (PyStr "1,23") = Return (Some (FFinite false 123 (-2))) /\
  _safe_float Demo.repr (PyStr " -7 ") = Return (Some (FFinite true 7 0)) /\
  _safe_float Demo.repr (PyInt 42) = Return (Some (FFinite false 42 0)) /\
  _safe_float Demo.repr (PyBool true) = Return None /\
  _safe_float Demo.repr (PyStr "1,234,567") = Return None /\
  _safe_float Demo.repr (PyStr "abc") = Return None.
Proof. repeat split. Qed.

(** Texts that are not of decimal shape and that [float] accepts all the
    same. *)
Example safe_float_beyond_decimal_shape :
  _safe_float Demo.repr (PyStr "+.5") = Return (Some (FFinite false 5 (-1))) /\
  _safe_float Demo.repr (PyStr "2.") = Return (Some (FFinite false 2 0)) /\
  _safe_float Demo.repr (PyStr "1_000") = Return (Some (FFinite false 1000 0)) /\
  _safe_float Demo.repr (PyStr "-Infinity") = Return (Some (FInf true)) /\
  _safe_float Demo.repr (PyStr "-nan") = Return (Some FNan).
Proof. repeat split. Qed.

(** C5, as stated, fails: the text [1e5] is not empty, not one of
    nan/none/null and not of decimal shape, so the claim gives it the
    absent value; [_safe_float] returns the number. *)
Lemma exponent_text_is_not_absent :
  is_sentinel (strip "1e5") = false /\
  decimal_shape "1e5" = false /\
  claimed_safe_float Demo.repr (PyStr "1e5") = None /\
  _safe_float Demo.repr (PyStr "1e5") = Return (Some (FFinite false 1 5)) /\
  _safe_float Demo.repr (PyStr "1e5")
  <> Return (claimed_safe_float Demo.repr (PyStr "1e5")).
Proof. repeat split. discriminate. Qed.

Lemma safe_float_total_witness :
  decimal_shape " -1,50 " = true /\
  _safe_float Demo.repr (PyStr " -1,50 ")
  = Return (Some (FFinite true 150 (-2))).
Proof.
  split; [reflexivity|].
  destruct (safe_float_total Demo.repr (PyStr " -1,50 "))
    as (r & Hr & _ & Hdec & _).
  rewrite Hr, (Hdec eq_refl). reflexivity.
Defined.

Example safe_str_examples :
  _safe_str Demo.repr PyNone = None /\
  _safe_str Demo.repr (PyStr "") = None /\
  _safe_str Demo.repr (PyStr "   ") = None /\
  _safe_str Demo.repr (PyStr " ok ") = Some "ok" /\
  _safe_str Demo.repr (PyInt 3) = Some "3" /\
  _safe_str Demo.repr (PyFloat FNan) = Some "nan".
Proof. repeat split. Qed.


(* ================================================================== *)
(** * The resolution of headers *)
(* ================================================================== *)

Lemma lower_char_idem c : lower_char (lower_char c) = lower_char c.
Proof. destruct c as [[] [] [] [] [] [] [] []]; reflexivity. Qed.

Lemma lower_idem s : lower (lower s) = lower s.
Proof.
  induction s as [|c s IH]; simpl; [reflexivity|].
  rewrite lower_char_idem, IH. reflexivity.
Qed.

(** On a map that holds, with each key, its lower-case form for the same
    target, the lookup up to case is the lookup of the lower-cased
    header. *)
Lemma lookup_nocase_lower (m : gmap string string) (c : string) :
  (forall k t, m !! k = Some t -> m !! lower k = Some t) ->
  lookup_nocase m c = m !! lower c.
Proof.
  intros Hclosed. unfold lookup_nocase.
  destruct (list_find _ (map_to_list m)) as [[i [k t]]|] eqn:Hfind; simpl.
  - apply list_find_Some in Hfind as (Hi & Hk & _). simpl in Hk.
    apply list_elem_of_lookup_2, elem_of_map_to_list in Hi.
    rewrite <- Hk. symmetry. apply Hclosed, Hi.
  - destruct (m !! lower c) as [t|] eqn:Hl; [|reflexivity].
    apply list_find_None in Hfind.
    apply elem_of_map_to_list in Hl.
    rewrite Forall_forall in Hfind. apply Hfind in Hl.
    simpl in Hl. destruct Hl. apply lower_idem.
Qed.

Lemma default_map_lower k t :
  default_map !! k = Some t -> default_map !! lower k = Some t.
Proof.
  intros H. apply elem_of_map_to_list in H.
  assert (Forall (fun kv => default_map !! lower kv.1 = Some kv.2)
                 (map_to_list default_map)) as Hall.
  { vm_compute map_to_list. repeat constructor. }
  rewrite Forall_forall in Hall. apply (Hall (k, t) H).
Qed.

(** Where the overrides have lower-case keys, the resolution of the code
    is the resolution the specification words: the lookup is up to the
    case of the header, an override wins over a default, a header that
    names a target passes, any other header is left out. *)
Lemma resolve_meets_spec_for_lowercase_overrides
  (m : gmap string string) (c : string) :
  (forall k t, m !! k = Some t -> lower k = k) ->
  resolve (combined_map (Some m)) c = resolve_spec m c.
Proof.
  intros Hlow. unfold resolve, resolve_spec.
  rewrite (lookup_nocase_lower m c)
    by (intros k t H; rewrite (Hlow k t H); exact H).
  rewrite (lookup_nocase_lower default_map c default_map_lower).
  unfold combined_map. case_bool_decide as He.
  - subst m. rewrite lookup_empty. reflexivity.
  - rewrite lookup_union. destruct (m !! lower c), (default_map !! lower c);
      reflexivity.
Qed.

(** C6, where the code departs from it: an override keyed by the header
    as the file writes it, with a capital, is never looked up.  The
    specification resolves [Potencia] to [power_kw]; the code leaves the
    column out, and the power of the row is absent though the cell holds
    1.5. *)
Theorem override_key_with_capital_is_ignored :
  let overrides : gmap string string := {["Potencia" := "power_kw"]} in
  resolve_spec overrides "Potencia" = Some "power_kw" /\
  resolve (combined_map (Some overrides)) "Potencia" = None /\
  col_map_existing (combined_map (Some overrides)) ["timestamp"; "Potencia"]
  = [("timestamp", "timestamp")] /\
  committed (db (demo_run Demo.potencia Demo.always_stored
                   (Some overrides) 1000).1)
  = [ mkReading 7 (PyStr "2024-01-01 00:00:00") None None None None None ].
Proof. cbn zeta. repeat split; vm_compute; reflexivity. Qed.

(** With the key in lower case the same column is read. *)
Example override_key_in_lower_case :
  committed (db (demo_run Demo.potencia Demo.always_stored
                   (Some {["potencia" := "power_kw"]}) 1000).1)
  = [ mkReading 7 (PyStr "2024-01-01 00:00:00")
        (Some (FFinite false 15 (-1))) None None None None ].
Proof. vm_compute. reflexivity. Qed.

Lemma resolve_meets_spec_for_lowercase_overrides_witness :
  resolve (combined_map (Some {["potencia" := "power_kw"]})) " Potencia"
  = resolve_spec {["potencia" := "power_kw"]} " Potencia" /\
  resolve (combined_map (Some {["potencia" := "power_kw"]})) "POTENCIA"
  = Some "power_kw".
Proof.
  split; [|reflexivity].
  apply (resolve_meets_spec_for_lowercase_overrides
           {["potencia" := "power_kw"]} " Potencia").
  intros k t H. apply lookup_singleton_Some in H as [<- _]. reflexivity.
Defined.

(** Every target name is a key of the merged mapping, whatever the
    overrides. *)
Lemma combined_map_has_targets cm t :
  t ∈ targets -> is_Some (combined_map cm !! t).
Proof.
  intros Ht.
  assert (is_Some (default_map !! t)) as [d Hd].
  { unfold targets in Ht. rewrite !elem_of_cons in Ht.
    destruct Ht as [-> | [-> | [-> | [-> | [-> | [-> | Ht]]]]]];
      [eexists; reflexivity .. | inversion Ht]. }
  unfold combined_map. destruct cm as [m|]; [|eauto].
  case_bool_decide; [eauto|].
  rewrite lookup_union. rewrite Hd. destruct (m !! t); simpl; eauto.
Qed.

(** The target of a header is the entry of the merged mapping under the
    lower-cased header and nothing else: the fallback for headers that
    name a target never fires, every target name being a key already. *)
Theorem resolve_is_lookup_of_lowercased_header cm (c : string) :
  resolve (combined_map cm) c = combined_map cm !! lower c.
Proof.
  unfold resolve. destruct (combined_map cm !! lower c) as [t|] eqn:Hl;
    [reflexivity|].
  case_bool_decide as Ht; [|reflexivity].
  destruct (combined_map_has_targets cm _ Ht) as [t Hsome]. congruence.
Qed.





Lemma chunk_rows_are_row_readings_witness :
  let c := mkDataFrame (csv_header Demo.three_rows) (csv_rows Demo.three_rows) in
  chunk_rows Demo.repr Demo.to_datetime 7 (combined_map None) c =
  omap (row_reading Demo.repr Demo.to_datetime 7 (combined_map None)
          (df_columns c) (timestamp_cells (combined_map None) c))
       (df_rows c).
Proof.
  apply (chunk_rows_are_row_readings Demo.repr Demo.to_datetime 7
           (combined_map None)
           (mkDataFrame (csv_header Demo.three_rows) (csv_rows Demo.three_rows))).
  vm_compute. reflexivity.
Defined.

Lemma unmapped_target_is_absent_witness :
  let c := mkDataFrame (csv_header Demo.three_rows) (csv_rows Demo.three_rows) in
  Forall (fun r => r_current_a r = None /\ r_status r = None)
    (chunk_rows Demo.repr Demo.to_datetime 7 (combined_map None) c).
Proof.
  cbn zeta. apply Forall_forall. intros r Hr.
  assert (forall t, t = "current_a" \/ t = "status" ->
            forall label, label ∈ ["datetime"; "power"; "voltage"] ->
              resolve (combined_map None) (strip label) <> Some t) as Hun.
  { intros t Ht label Hl. rewrite !elem_of_cons in Hl.
    destruct Hl as [-> | [-> | [-> | Hl]]]; [| | | inversion Hl];
      destruct Ht as [-> | ->]; vm_compute; discriminate. }
  destruct (unmapped_target_is_absent Demo.repr Demo.to_datetime 7
              (combined_map None)
              (mkDataFrame (csv_header Demo.three_rows)
                           (csv_rows Demo.three_rows))
              r eq_refl Hr) as (_ & _ & Hc & _ & Hs).
  split; [apply Hc | apply Hs]; apply Hun; auto.
Defined.



(** One row at a time or all at once, the same rows are committed. *)
Example chunk_size_does_not_matter :
  committed (db (demo_run Demo.three_rows Demo.always_stored None 1).1) =
  committed (db (demo_run Demo.three_rows Demo.always_stored None 1000).1).
Proof. vm_compute. reflexivity. Qed.

Lemma committed_rows_are_whole_chunks_witness :
  let run := demo_run Demo.five_rows Demo.second_fails None 2 in
  exists k, k <= 3 /\
    committed (db run.1) =
      [] ++ concat (chunk_rows Demo.repr Demo.to_datetime 7 (combined_map None)
                      <$> take k [Demo.five_chunk0; Demo.five_chunk1;
                                  Demo.five_chunk2]) /\
    pending (db run.1) = [] /\
    (forall v, run.2 = Return v -> k = 3).
Proof.
  apply (committed_rows_are_whole_chunks Demo.repr Demo.to_datetime
           (Demo.world_of Demo.five_rows Demo.second_fails)
           "solar.db" 7 "data.csv" "timestamp" None 2 Demo.five_rows
           [Demo.five_chunk0; Demo.five_chunk1; Demo.five_chunk2]).
  - reflexivity.
  - reflexivity.
  - vm_compute. reflexivity.
Defined.


Lemma safe_str_idempotent_witness :
  _safe_str Demo.repr (PyStr "on line") = Some "on line".
Proof.
  apply (safe_str_idempotent Demo.repr (PyStr "  on line ") "on line").
  reflexivity.
Defined.

Lemma coercions_ignore_surrounding_whitespace_witness :
  _safe_float Demo.repr (PyStr ("  " +:+ "3,5" +:+ " "))
  = _safe_float Demo.repr (PyStr "3,5") /\
  _safe_str Demo.repr (PyStr ("  " +:+ "3,5" +:+ " "))
  = _safe_str Demo.repr (PyStr "3,5").
Proof.
  apply (coercions_ignore_surrounding_whitespace Demo.repr "  " " " "3,5");
    reflexivity.
Defined.

(* ================================================================== *)
(** * Integer cells *)
(* ================================================================== *)

Lemma uint_text_digits (d : Decimal.uint) :
  all_digits (DecimalString.NilEmpty.string_of_uint d) = true.
Proof. induction d; cbn [DecimalString.NilEmpty.string_of_uint all_digits]; done. Qed.

Lemma uint_text_value_acc (d : Decimal.uint) (acc : positive) :
  value_digits (N.pos acc) (DecimalString.NilEmpty.string_of_uint d)
  = N.pos (Pos.of_uint_acc d acc).
Proof.
  revert acc.
  induction d as [|d IH|d IH|d IH|d IH|d IH|d IH|d IH|d IH|d IH|d IH];
    intros acc;
    cbn [DecimalString.NilEmpty.string_of_uint value_digits Pos.of_uint_acc];
    [reflexivity|..];
    rewrite <- IH; f_equal;
    match goal with
    | |- context [is_digit ?c] =>
        change (is_digit c) with true;
        let v := eval vm_compute in (digit_val c) in
        change (digit_val c) with v
    end; cbv iota; lia.
Qed.

Lemma uint_text_value (d : Decimal.uint) :
  value_digits 0 (DecimalString.NilEmpty.string_of_uint d) = Pos.of_uint d.
Proof.
  induction d as [|d IH|d IH|d IH|d IH|d IH|d IH|d IH|d IH|d IH|d IH];
    cbn [DecimalString.NilEmpty.string_of_uint value_digits Pos.of_uint];
    [reflexivity|exact IH|..];
    rewrite <- uint_text_value_acc; reflexivity.
Qed.

Lemma positive_text (p : positive) :
  let d1 := DecimalString.NilEmpty.string_of_uint (Pos.to_uint p) in
  DecimalString.NilZero.string_of_uint (Pos.to_uint p) = d1 /\
  all_digits d1 = true /\ d1 <> "" /\ value_digits 0 d1 = N.pos p.
Proof.
  intros d1. subst d1.
  pose proof (DecimalPos.Unsigned.to_uint_nonnil p) as Hnil.
  repeat split.
  - by destruct (Pos.to_uint p).
  - apply uint_text_digits.
  - by destruct (Pos.to_uint p).
  - rewrite uint_text_value. apply DecimalPos.Unsigned.of_to.
Qed.

Lemma safe_float_signed_digits repr (x : pyval) (neg : bool) (d1 : string) :
  x <> PyNone -> (forall f, x <> PyFloat f) ->
  py_str repr x = sign_text neg +:+ d1 ->
  all_digits d1 = true -> d1 <> "" ->
  _safe_float repr x = Return (Some (FFinite neg (value_digits 0 d1) 0)).
Proof.
  intros Hn Hf Hs Hd Hne.
  assert (Hfr : fraction_ok "") by (by left).
  rewrite safe_float_by_text, safe_float_text, Hs by done.
  pose proof (core_trimmed neg d1 "" Hd Hne Hfr) as Ht.
  pose proof (core_not_sentinel neg d1 "" Hd Hne) as Hsent.
  pose proof (core_replace neg d1 "" Hd Hfr) as Hrep.
  pose proof (float_core neg d1 "" Hd Hne Hfr) as Hfl.
  pose proof (strip_of_trimmed "" "" _ eq_refl eq_refl Ht) as Hstrip.
  cbn [period_fraction] in *. rewrite !app_empty_r in *.
  change ("" +:+ (sign_text neg +:+ d1)) with (sign_text neg +:+ d1) in Hstrip.
  rewrite Hstrip, Hsent, Hrep, Hfl. reflexivity.
Qed.

(** An integer cell is read as that integer: [_safe_float] of an int of
    64 bits, which is what a cell of an integer column holds, gives the
    float written by its decimal digits, with its sign. *)
Theorem safe_float_reads_integers repr (z : Z) :
  (- 2 ^ 63 <= z < 2 ^ 63)%Z ->
  _safe_float repr (PyInt z) = Return (Some (FFinite (z <? 0)%Z (Z.abs_N z) 0)).
Proof.
  intros _. destruct z as [|p|p].
  - reflexivity.
  - destruct (positive_text p) as (Ht & Hd & Hne & Hv).
    change (Z.pos p <? 0)%Z with false. change (Z.abs_N (Z.pos p)) with (N.pos p).
    rewrite <- Hv. by apply safe_float_signed_digits.
  - destruct (positive_text p) as (Ht & Hd & Hne & Hv).
    change (Z.neg p <? 0)%Z with true. change (Z.abs_N (Z.neg p)) with (N.pos p).
    rewrite <- Hv. apply safe_float_signed_digits; try done.
    cbn [py_str]. unfold of_Z. cbn [Z.to_int DecimalString.NilZero.string_of_int].
    by rewrite Ht.
Qed.

Lemma safe_float_reads_integers_witness :
  _safe_float Demo.repr (PyInt (-42)) = Return (Some (FFinite true 42 0)).
Proof.
  apply (safe_float_reads_integers Demo.repr (-42)). lia.
Defined.

(* ================================================================== *)
(** * The tables: [create_db], [add_project], [add_system] *)
(* ================================================================== *)

Section CrudFacts.
Import Crud.

Lemma max_key_bound {R} (key : R -> Z) (rows : list R) :
  (0 <= max_key key rows)%Z /\ forall r, r ∈ rows -> (key r <= max_key key rows)%Z.
Proof.
  induction rows as [|x rows [IH0 IH]]; cbn [max_key foldr].
  - split; [lia|]. intros r Hr. by apply elem_of_nil in Hr.
  - fold (max_key key rows). split; [lia|].
    intros r [->|Hr]%elem_of_cons; [lia|]. specialize (IH r Hr). lia.
Qed.

Lemma max_key_snoc {R} (key : R -> Z) (rows : list R) (x : R) :
  max_key key (rows ++ [x]) = Z.max (max_key key rows) (Z.max (key x) 0).
Proof.
  induction rows as [|y rows IH]; cbn [max_key foldr app].
  - lia.
  - fold (max_key key (rows ++ [x])). fold (max_key key rows). rewrite IH. lia.
Qed.

Lemma next_rowid_fresh {R} (key : R -> Z) (t : table R) :
  (0 < next_rowid key t)%Z /\ (t_seq t < next_rowid key t)%Z /\
  forall r, r ∈ t_rows t -> (key r < next_rowid key t)%Z.
Proof.
  unfold next_rowid. destruct (max_key_bound key (t_rows t)) as [H0 H].
  repeat split; try lia. intros r Hr. specialize (H r Hr). lia.
Qed.

Lemma next_rowid_after {R} (key : R -> Z) (t : table R) (x : R) (k : Z) :
  key x = k -> k = next_rowid key t ->
  next_rowid key (mkTable (t_rows t ++ [x]) k) = (k + 1)%Z.
Proof.
  intros Hx Hk. unfold next_rowid at 1. cbn [t_rows t_seq].
  rewrite max_key_snoc, Hx.
  destruct (next_rowid_fresh key t) as (? & ? & _).
  unfold next_rowid in *. lia.
Qed.

Lemma new_rowid_room {R} (key : R -> Z) (t : table R) :
  (next_rowid key t <= max_rowid)%Z -> new_rowid key t = Done (next_rowid key t).
Proof. intros H. unfold new_rowid. by apply Z.leb_le in H as ->. Qed.

Lemma new_rowid_done {R} (key : R -> Z) (t : table R) k :
  new_rowid key t = Done k -> k = next_rowid key t /\ (k <= max_rowid)%Z.
Proof.
  unfold new_rowid. destruct (Z.leb_spec (next_rowid key t) max_rowid); [|done].
  intros [= <-]. done.
Qed.

Lemma project_exists_iff (rows : list project_row) k :
  existsb (fun r => (p_id r =? k)%Z) rows = true <->
  exists p, p ∈ rows /\ p_id p = k.
Proof.
  rewrite existsb_exists. split; intros (p & Hp & He); exists p.
  - apply list_elem_of_In in Hp. split; [done|lia].
  - apply list_elem_of_In in Hp. split; [done|lia].
Qed.

Lemma create_index_elem name l i :
  i ∈ create_index_if_not_exists name l <-> i ∈ l \/ i = name.
Proof.
  unfold create_index_if_not_exists. case_bool_decide as H.
  - split; [auto|]. intros [?| ->]; done.
  - rewrite elem_of_app, list_elem_of_singleton. done.
Qed.

Lemma create_index_present name l :
  name ∈ l -> create_index_if_not_exists name l = l.
Proof. intros H. unfold create_index_if_not_exists. by rewrite bool_decide_eq_true_2. Qed.

(** [create_db] makes the four tables and the three indexes exist,
    keeps every table that was there with its rows and its sequence, and
    calling it again changes nothing. *)
Theorem create_db_keeps_rows_and_is_idempotent (d : database) :
  (projects (create_db d) = Some (default empty_table (projects d)) /\
   systems (create_db d) = Some (default empty_table (systems d)) /\
   meteo_data (create_db d) = Some (default empty_table (meteo_data d)) /\
   electrical_data (create_db d) = Some (default empty_table (electrical_data d))) /\
  (forall i, i ∈ indexes (create_db d) <->
     i ∈ indexes d \/
     i ∈ ["idx_systems_project"; "idx_meteo_system_time"; "idx_elec_system_time"]) /\
  create_db (create_db d) = create_db d.
Proof.
  split; [|split].
  - destruct d as [[?|] [?|] [?|] [?|] ?]; done.
  - intros i. unfold create_db. cbn [indexes].
    rewrite !create_index_elem, !elem_of_cons, elem_of_nil. tauto.
  - unfold create_db at 1. unfold create_db at 1 2 3 4.
    cbn [projects systems meteo_data electrical_data].
    rewrite (create_index_present "idx_systems_project").
    2:{ unfold create_db. cbn [indexes]. rewrite !create_index_elem. tauto. }
    rewrite (create_index_present "idx_meteo_system_time").
    2:{ unfold create_db. cbn [indexes]. rewrite !create_index_elem. tauto. }
    rewrite (create_index_present "idx_elec_system_time").
    2:{ unfold create_db. cbn [indexes]. rewrite !create_index_elem. tauto. }
    destruct d as [[?|] [?|] [?|] [?|] ?]; done.
Qed.


Lemma add_project_room now d t name location description :
  projects d = Some t ->
  (next_rowid p_id t <= max_rowid)%Z ->
  add_project now d name location description =
    (mkDb (Some (mkTable
                   (t_rows t ++ [mkProject (next_rowid p_id t) name location
                                           description now])
                   (next_rowid p_id t)))
          (systems d) (meteo_data d) (electrical_data d) (indexes d),
     Done (next_rowid p_id t)).
Proof.
  intros Ht Hroom. unfold add_project. by rewrite Ht, new_rowid_room.
Qed.

Lemma add_system_accepts now d ts tp project_id name capacity_kw inverter_type notes :
  systems d = Some ts ->
  projects d = Some tp ->
  (next_rowid s_id ts <= max_rowid)%Z ->
  (exists p, p ∈ t_rows tp /\ p_id p = project_id) ->
  add_system now d project_id name capacity_kw inverter_type notes =
    (mkDb (projects d)
          (Some (mkTable
                   (t_rows ts ++ [mkSystem (next_rowid s_id ts) project_id name
                                           capacity_kw inverter_type notes now])
                   (next_rowid s_id ts)))
          (meteo_data d) (electrical_data d) (indexes d),
     Done (next_rowid s_id ts)).
Proof.
  intros Hs Hp Hroom Hex. unfold add_system.
  rewrite Hs, Hp, new_rowid_room by done.
  apply project_exists_iff in Hex. by rewrite Hex.
Qed.

(** [add_project] on a table with room appends one row holding the
    arguments and returns its key, which is positive and larger than the
    key of every row of the table and than every key given before. *)
Theorem add_project_gives_fresh_key now d t name location description :
  projects d = Some t ->
  (next_rowid p_id t <= max_rowid)%Z ->
  exists k,
    add_project now d name location description =
      (mkDb (Some (mkTable
                     (t_rows t ++ [mkProject k name location description now]) k))
            (systems d) (meteo_data d) (electrical_data d) (indexes d),
       Done k) /\
    (0 < k)%Z /\ (t_seq t < k)%Z /\
    forall r, r ∈ t_rows t -> (p_id r < k)%Z.
Proof.
  intros Ht Hroom. exists (next_rowid p_id t). split.
  - by apply add_project_room.
  - apply next_rowid_fresh.
Qed.

Lemma add_project_done now d name location description d1 k :
  add_project now d name location description = (d1, Done k) ->
  exists t,
    projects d = Some t /\ k = next_rowid p_id t /\ (k <= max_rowid)%Z /\
    d1 = mkDb (Some (mkTable
                       (t_rows t ++ [mkProject k name location description now]) k))
              (systems d) (meteo_data d) (electrical_data d) (indexes d).
Proof.
  unfold add_project. destruct (projects d) as [t|] eqn:Ht; [|done].
  destruct (new_rowid p_id t) as [k'|e] eqn:Hk; [|done].
  apply new_rowid_done in Hk as [-> Hle].
  intros [= <- <-]. by exists t.
Qed.

(** Two successful calls of [add_project], with whatever is done to
    the other tables in between, return consecutive keys, and the table
    ends with the two rows in the order of the calls. *)
Theorem project_keys_are_consecutive
  now1 now2 d d1 d1' d2 k1 k2 name1 name2 location1 location2
  description1 description2 :
  add_project now1 d name1 location1 description1 = (d1, Done k1) ->
  projects d1' = projects d1 ->
  add_project now2 d1' name2 location2 description2 = (d2, Done k2) ->
  k2 = (k1 + 1)%Z /\
  exists t,
    projects d = Some t /\
    projects d2 =
      Some (mkTable
              (t_rows t ++ [mkProject k1 name1 location1 description1 now1;
                            mkProject k2 name2 location2 description2 now2])
              k2).
Proof.
  intros H1 Heq H2.
  apply add_project_done in H1 as (t & Ht & Hk1 & _ & ->).
  apply add_project_done in H2 as (t1 & Ht1 & Hk2 & _ & ->).
  rewrite Heq in Ht1. cbn [projects] in Ht1. injection Ht1 as <-.
  set (row := mkProject k1 name1 location1 description1 now1) in *.
  assert (Hnext : k2 = (k1 + 1)%Z).
  { rewrite Hk2. exact (next_rowid_after p_id t row k1 eq_refl Hk1). }
  split; [done|]. exists t. split; [done|].
  cbn [projects t_rows]. by rewrite <- app_assoc.
Qed.


Lemma add_system_cases now d project_id name capacity_kw inverter_type notes :
  (exists e, add_system now d project_id name capacity_kw inverter_type notes
             = (d, Failed e))
  \/
  exists ts tp p k,
    systems d = Some ts /\ projects d = Some tp /\
    p ∈ t_rows tp /\ p_id p = project_id /\
    k = next_rowid s_id ts /\ (k <= max_rowid)%Z /\
    add_system now d project_id name capacity_kw inverter_type notes =
      (mkDb (projects d)
            (Some (mkTable
                     (t_rows ts ++ [mkSystem k project_id name capacity_kw
                                             inverter_type notes now]) k))
            (meteo_data d) (electrical_data d) (indexes d),
       Done k).
Proof.
  unfold add_system.
  destruct (systems d) as [ts|] eqn:Hs; [|by left; eauto].
  destruct (projects d) as [tp|] eqn:Hp; [|by left; eauto].
  destruct (new_rowid s_id ts) as [k|e] eqn:Hk; [|by left; eauto].
  apply new_rowid_done in Hk as [-> Hle].
  destruct (existsb _ (t_rows tp)) eqn:He; [|by left; eauto].
  apply project_exists_iff in He as (p & Hin & Hid).
  right. exists ts, tp, p, (next_rowid s_id ts). done.
Qed.

Lemma add_project_cases now d name location description :
  (exists e, add_project now d name location description = (d, Failed e))
  \/
  exists d1 k, add_project now d name location description = (d1, Done k).
Proof.
  unfold add_project. destruct (projects d) as [t|]; [|by left; eauto].
  destruct (new_rowid p_id t); [right|left]; eauto.
Qed.

Lemma run_call_keeps_integrity d c :
  referential_integrity d -> referential_integrity (run_call d c).
Proof.
  intros Hri. destruct c as [|now name location description
                            |now pid name cap inv notes]; cbn [run_call].
  - intros ts s Hts Hs. unfold create_db in Hts |- *. cbn [systems projects] in *.
    destruct (systems d) as [ts0|] eqn:Hs0.
    + injection Hts as <-. destruct (Hri ts0 s Hs0 Hs) as (tp & p & Hp & Hin & Hid).
      exists tp, p. by rewrite Hp.
    + injection Hts as <-. by apply elem_of_nil in Hs.
  - destruct (add_project_cases now d name location description)
      as [[e ->]|(d1 & k & H)]; [done|].
    rewrite H. cbn [fst].
    apply add_project_done in H as (t & Ht & _ & _ & ->).
    intros ts s Hts Hs. cbn [systems projects] in *.
    destruct (Hri ts s Hts Hs) as (tp & p & Hp & Hin & Hid).
    rewrite Ht in Hp. injection Hp as <-.
    eexists _, p. split; [done|]. cbn [t_rows]. split; [|done].
    apply elem_of_app. by left.
  - destruct (add_system_cases now d pid name cap inv notes)
      as [[e ->]|(ts0 & tp & p & k & Hs0 & Hp & Hin & Hid & _ & _ & ->)]; [done|].
    cbn [fst]. intros ts s Hts Hs. cbn [systems projects] in *.
    injection Hts as <-. cbn [t_rows] in Hs.
    apply elem_of_app in Hs as [Hs|Hs].
    + destruct (Hri ts0 s Hs0 Hs) as (tp' & p' & Hp' & Hin' & Hid'). eauto.
    + apply list_elem_of_singleton in Hs as ->. cbn [s_project_id]. eauto.
Qed.

(** Whatever calls of [create_db], [add_project] and [add_system] are
    made, accepted or not, every system still belongs to a project. *)
Theorem calls_keep_referential_integrity (d : database) (cs : list call) :
  referential_integrity d -> referential_integrity (run_calls d cs).
Proof.
  unfold run_calls. revert d.
  induction cs as [|c cs IH]; intros d Hri; cbn [foldl]; [done|].
  by apply IH, run_call_keeps_integrity.
Qed.

Lemma new_file_has_integrity : referential_integrity new_file.
Proof. intros ts s Hts. discriminate Hts. Qed.

Lemma has_room_created {R} (key : R -> Z) (t : option (table R)) n :
  has_room key t n ->
  exists t', create_table_if_not_exists t = Some t' /\
             (next_rowid key t' + n <= max_rowid + 1)%Z.
Proof.
  destruct t as [t|]; cbn [has_room create_table_if_not_exists]; intros H.
  - by exists t.
  - exists empty_table. split; [done|].
    unfold next_rowid, empty_table. cbn [t_seq t_rows max_key foldr]. lia.
Qed.

(** The set-up of the main block, for any arguments: on a database
    with room, after [create_db] the project is added, and the two
    systems given the key it returned are both accepted, with
    consecutive keys above those of all earlier systems. *)
Theorem systems_of_new_project_are_accepted
  (d : database) now0 name location description
  now1 name1 capacity1 inverter1 notes1
  now2 name2 capacity2 inverter2 notes2 :
  has_room p_id (projects d) 1 ->
  has_room s_id (systems d) 2 ->
  exists d1 proyecto_id d2 sys1 d3,
    add_project now0 (create_db d) name location description = (d1, Done proyecto_id) /\
    add_system now1 d1 proyecto_id name1 capacity1 inverter1 notes1 = (d2, Done sys1) /\
    add_system now2 d2 proyecto_id name2 capacity2 inverter2 notes2
      = (d3, Done (sys1 + 1)%Z) /\
    forall s, s ∈ default [] (t_rows <$> systems d) -> (s_id s < sys1)%Z.
Proof.
  intros (tp & Htp & Hrp)%has_room_created (ts & Hts & Hrs)%has_room_created.
  assert (Hp0 : projects (create_db d) = Some tp) by done.
  assert (Hs0 : systems (create_db d) = Some ts) by done.
  pose proof (add_project_room now0 (create_db d) tp name location description
                Hp0 ltac:(lia)) as Hadd.
  set (k := next_rowid p_id tp) in *.
  set (prow := mkProject k name location description now0) in *.
  match type of Hadd with _ = (?x, _) => set (d1 := x) in * end.
  assert (Hin : exists p, p ∈ t_rows tp ++ [prow] /\ p_id p = k).
  { exists prow. split; [|done]. apply elem_of_app. right.
    by apply list_elem_of_singleton. }
  pose proof (add_system_accepts now1 d1 ts (mkTable (t_rows tp ++ [prow]) k) k
                name1 capacity1 inverter1 notes1 Hs0 eq_refl ltac:(lia) Hin)
    as Hadd1.
  set (s1 := next_rowid s_id ts) in *.
  set (srow := mkSystem s1 k name1 capacity1 inverter1 notes1 now1) in *.
  match type of Hadd1 with _ = (?x, _) => set (d2 := x) in * end.
  assert (Hnext : next_rowid s_id (mkTable (t_rows ts ++ [srow]) s1) = (s1 + 1)%Z)
    by exact (next_rowid_after s_id ts srow s1 eq_refl eq_refl).
  pose proof (add_system_accepts now2 d2 (mkTable (t_rows ts ++ [srow]) s1)
                (mkTable (t_rows tp ++ [prow]) k) k
                name2 capacity2 inverter2 notes2 eq_refl eq_refl ltac:(lia) Hin)
    as Hadd2.
  rewrite Hnext in Hadd2.
  eexists d1, k, d2, s1, _. repeat split; [exact Hadd|exact Hadd1|exact Hadd2|].
  intros s Hs. apply (next_rowid_fresh s_id ts).
  unfold create_db in Hs0. cbn [systems] in Hs0.
  destruct (systems d) as [ts0|]; cbn in Hs, Hs0.
  - by injection Hs0 as <-.
  - by apply elem_of_nil in Hs.
Qed.

Lemma add_project_gives_fresh_key_witness :
  exists k,
    (add_project "2025-03-01 10:00:00" (create_db new_file)
       "Parque Solar A" (Some "Bogota") None).2 = Done k /\ (0 < k)%Z.
Proof.
  destruct (add_project_gives_fresh_key "2025-03-01 10:00:00"
              (create_db new_file) empty_table "Parque Solar A" (Some "Bogota")
              None eq_refl ltac:(vm_compute; discriminate))
    as (k & H & Hk & _).
  exists k. rewrite H. split; [reflexivity|exact Hk].
Defined.

Lemma project_keys_are_consecutive_witness :
  let d := create_db new_file in
  let d1 := (add_project "2025-03-01 10:00:00" d "Parque Solar A" None None).1 in
  let d2 := (add_project "2025-03-02 10:00:00" d1 "Parque Solar B" None None).1 in
  (2 = 1 + 1)%Z /\
  exists t,
    projects d = Some t /\
    projects d2 =
      Some (mkTable
              (t_rows t ++ [mkProject 1 "Parque Solar A" None None "2025-03-01 10:00:00";
                            mkProject 2 "Parque Solar B" None None "2025-03-02 10:00:00"])
              2).
Proof.
  intros d d1 d2.
  apply (project_keys_are_consecutive "2025-03-01 10:00:00" "2025-03-02 10:00:00"
           d d1 d1 d2 1 2 "Parque Solar A" "Parque Solar B" None None None None);
    reflexivity.
Defined.


Lemma calls_keep_referential_integrity_witness :
  referential_integrity
    (run_calls new_file
       [Create_db;
        Add_project "2025-03-01 10:00:00" "Parque Solar A" None None;
        Add_system "2025-03-01 10:05:00" 1 "Array Norte" None None None;
        Add_system "2025-03-01 10:06:00" 7 "Array Sur" None None None]).
Proof.
  apply (calls_keep_referential_integrity new_file).
  intros ts s Hts. discriminate Hts.
Defined.

Lemma systems_of_new_project_are_accepted_witness :
  exists d1 proyecto_id d2 sys1 d3,
    add_project "2025-03-01 10:00:00" (create_db new_file)
      "Parque Solar A" (Some "Bogota") (Some "Proyecto de ejemplo")
      = (d1, Done proyecto_id) /\
    add_system "2025-03-01 10:05:00" d1 proyecto_id "Array Norte"
      (Some (FFinite false 3000 0)) (Some "String") None = (d2, Done sys1) /\
    add_system "2025-03-01 10:06:00" d2 proyecto_id "Array Sur"
      (Some (FFinite false 2000 0)) (Some "Central") None
      = (d3, Done (sys1 + 1)%Z) /\
    forall s, s ∈ default [] (t_rows <$> systems new_file) -> (s_id s < sys1)%Z.
Proof.
  apply (systems_of_new_project_are_accepted new_file);
    vm_compute; discriminate.
Defined.

End CrudFacts.

(* ================================================================== *)
(** * The script of src/sqlite.py *)
(* ================================================================== *)

Section UsuariosFacts.
Import Usuarios.

Lemma email_taken_spec (t : table) (email : string) :
  email_taken t email = true <-> exists r, r ∈ t_rows t /\ u_email r = Some email.
Proof.
  unfold email_taken. rewrite existsb_exists. split.
  - intros (r & Hin & He). exists r. split; [by apply list_elem_of_In|].
    destruct (u_email r) as [e|]; [|done]. by apply String.eqb_eq in He as ->.
  - intros (r & Hin & He). exists r. split; [by apply list_elem_of_In|].
    rewrite He. apply String.eqb_refl.
Qed.

Lemma usuario_keys_bound (rows : list usuario) :
  (0 <= foldr (fun r m => Z.max (u_id r) m) 0 rows)%Z /\
  forall r, r ∈ rows -> (u_id r <= foldr (fun r m => Z.max (u_id r) m) 0 rows)%Z.
Proof.
  induction rows as [|x rows [IH0 IH]]; cbn [foldr].
  - split; [lia|]. intros r Hr. by apply elem_of_nil in Hr.
  - split; [lia|]. intros r [->|Hr]%elem_of_cons; [lia|]. specialize (IH r Hr). lia.
Qed.

Lemma usuario_keys_snoc (rows : list usuario) (x : usuario) :
  foldr (fun r m => Z.max (u_id r) m) 0%Z (rows ++ [x])
  = Z.max (foldr (fun r m => Z.max (u_id r) m) 0%Z rows) (Z.max (u_id x) 0).
Proof.
  induction rows as [|y rows IH]; cbn [foldr app]; [lia|]. rewrite IH. lia.
Qed.

Lemma insert_cases (t : table) nombre edad email :
  (exists e, insert t nombre edad email = Failed e /\
             ((next_rowid t <= max_rowid)%Z ->
              email_taken t email = true /\
              e = IntegrityError "UNIQUE constraint failed: usuarios.email"))
  \/
  ((next_rowid t <= max_rowid)%Z /\ email_taken t email = false /\
   insert t nombre edad email =
     Done (mkTable (t_rows t ++ [mkUsuario (next_rowid t) nombre (Some edad) (Some email)])
                   (next_rowid t))).
Proof.
  unfold insert. destruct (Z.leb_spec (next_rowid t) max_rowid) as [Hle|Hgt];
    cbn [negb].
  - destruct (email_taken t email) eqn:He.
    + left. eexists. split; [done|]. done.
    + right. done.
  - left. eexists. split; [done|]. lia.
Qed.

Lemma usuario_next_rowid_after (t : table) (x : usuario) :
  u_id x = next_rowid t ->
  next_rowid (mkTable (t_rows t ++ [x]) (next_rowid t)) = (next_rowid t + 1)%Z.
Proof.
  intros Hx. unfold next_rowid at 1. cbn [t_rows t_seq].
  rewrite usuario_keys_snoc, Hx.
  destruct (usuario_keys_bound (t_rows t)) as [H0 _]. unfold next_rowid. lia.
Qed.

Lemma usuario_next_rowid_fresh (t : table) :
  forall r, r ∈ t_rows t -> (u_id r < next_rowid t)%Z.
Proof.
  intros r Hr. destruct (usuario_keys_bound (t_rows t)) as [_ H].
  specialize (H r Hr). unfold next_rowid. lia.
Qed.

Lemma email_taken_snoc (t : table) (x : usuario) k email :
  email_taken (mkTable (t_rows t ++ [x]) k) email
  = email_taken t email ||
    match u_email x with Some e => String.eqb e email | None => false end.
Proof.
  unfold email_taken. cbn [t_rows]. rewrite existsb_app. cbn [existsb].
  by rewrite orb_false_r.
Qed.

Lemma script_cases (file : option table) :
  let t := create_table_if_not_exists file in
  (exists e, script file = (Some t, Failed e) /\
     ((next_rowid t + 1 <= max_rowid)%Z ->
      email_taken t "ccarlos@example.com" || email_taken t "aana@example.com" = true /\
      e = IntegrityError "UNIQUE constraint failed: usuarios.email"))
  \/
  (email_taken t "ccarlos@example.com" = false /\
   email_taken t "aana@example.com" = false /\
   (next_rowid t + 1 <= max_rowid)%Z /\
   let rows := t_rows t ++
                 [mkUsuario (next_rowid t) "Carlos" (Some 25%Z) (Some "ccarlos@example.com");
                  mkUsuario (next_rowid t + 1) "Ana" (Some 30%Z) (Some "aana@example.com")] in
   script file = (Some (mkTable rows (next_rowid t + 1)), Done rows)).
Proof.
  intros t.
  assert (Hs : script file = script (Some t)) by (by destruct file).
  rewrite Hs. unfold script. cbn [create_table_if_not_exists].
  destruct (insert_cases t "Carlos" 25 "ccarlos@example.com")
    as [(e & -> & He)|(Hle & Hc & ->)].
  { left. exists e. split; [done|]. intros Hroom.
    destruct He as [-> ->]; [lia|]. done. }
  set (t1 := mkTable _ _).
  assert (Hn1 : next_rowid t1 = (next_rowid t + 1)%Z)
    by (apply usuario_next_rowid_after; done).
  assert (Ha1 : email_taken t1 "aana@example.com" = email_taken t "aana@example.com").
  { unfold t1. rewrite email_taken_snoc. cbn [u_email].
    replace (String.eqb "ccarlos@example.com" "aana@example.com") with false
      by (symmetry; by apply String.eqb_neq).
    apply orb_false_r. }
  destruct (insert_cases t1 "Ana" 30 "aana@example.com")
    as [(e & -> & He)|(Hle1 & Ha & ->)].
  { left. exists e. split; [done|]. intros Hroom.
    destruct He as [He ->]; [lia|]. split; [|done].
    rewrite <- Ha1, He. apply orb_true_r. }
  right. rewrite Ha1 in Ha. rewrite Hn1 in Hle1 |- *.
  split; [done|]. split; [done|]. split; [done|].
  cbn zeta. unfold t1. cbn [t_rows]. by rewrite <- app_assoc.
Qed.

(** The script of sqlite.py leaves the table with both new users after
    its earlier rows, under two consecutive fresh keys, and prints all
    rows; or it ends on an error with the table's rows as they were.
    It never stores one user without the other. *)
Theorem script_stores_both_users_or_none (file : option table) :
  (exists e, script file = (Some (create_table_if_not_exists file), Failed e))
  \/
  (exists k rows,
     rows = t_rows (create_table_if_not_exists file) ++
              [mkUsuario k "Carlos" (Some 25%Z) (Some "ccarlos@example.com");
               mkUsuario (k + 1) "Ana" (Some 30%Z) (Some "aana@example.com")] /\
     script file = (Some (mkTable rows (k + 1)), Done rows) /\
     (t_seq (create_table_if_not_exists file) < k)%Z /\
     forall r, r ∈ t_rows (create_table_if_not_exists file) -> (u_id r < k)%Z).
Proof.
  destruct (script_cases file) as [(e & H & _)|(_ & _ & _ & H)].
  - left. by exists e.
  - right. exists (next_rowid (create_table_if_not_exists file)).
    eexists. split; [reflexivity|]. split; [exact H|]. split.
    + unfold next_rowid. lia.
    + apply usuario_next_rowid_fresh.
Qed.

(** On a table with room for two rows the script succeeds exactly when
    neither of its two emails is already in the table, and the only
    error it can end on is the IntegrityError of the UNIQUE
    constraint. *)
Theorem script_succeeds_iff_emails_are_free (file : option table) :
  (next_rowid (create_table_if_not_exists file) + 1 <= max_rowid)%Z ->
  ((exists rows, (script file).2 = Done rows) <->
   forall r, r ∈ t_rows (create_table_if_not_exists file) ->
     u_email r <> Some "ccarlos@example.com" /\
     u_email r <> Some "aana@example.com") /\
  ((exists e, (script file).2 = Failed e) ->
   (script file).2 =
     Failed (IntegrityError "UNIQUE constraint failed: usuarios.email")).
Proof.
  intros Hroom. pose proof (script_cases file) as Hcases.
  cbn zeta in Hcases. set (t := create_table_if_not_exists file) in *.
  destruct Hcases as [(e & H & He)|(Hc & Ha & _ & H)].
  - destruct (He Hroom) as [Htaken ->]. rewrite H. cbn [snd]. split; [|done].
    split; [by intros [rows ?]|]. intros Hfree. exfalso.
    apply orb_true_iff in Htaken as [(r & Hin & Hr)%email_taken_spec
                                    |(r & Hin & Hr)%email_taken_spec];
      destruct (Hfree r Hin); done.
  - rewrite H. cbn [snd]. split; [|by intros [e ?]].
    split; [|by eauto]. intros _ r Hin. split; intros Hr.
    + assert (email_taken t "ccarlos@example.com" = true) as Ht
        by (apply email_taken_spec; eauto).
      by rewrite Ht in Hc.
    + assert (email_taken t "aana@example.com" = true) as Ht
        by (apply email_taken_spec; eauto).
      by rewrite Ht in Ha.
Qed.

(** Run a second time on the file it has left, the script always ends
    on an error and changes nothing. *)
Theorem script_fails_when_run_again (file : option table) :
  exists e, script (script file).1 = ((script file).1, Failed e).
Proof.
  destruct (script_cases file) as [(e & H & _)|(_ & _ & _ & H)].
  - rewrite H. cbn [fst]. exists e. rewrite <- H. by destruct file.
  - cbn zeta in H. rewrite H. cbn [fst].
    set (t2 := mkTable _ _).
    destruct (script_cases (Some t2)) as [(e & H2 & _)|(Hc & _)].
    + exists e. exact H2.
    + exfalso. cbn [create_table_if_not_exists] in Hc.
      assert (email_taken t2 "ccarlos@example.com" = true) as Ht;
        [|by rewrite Ht in Hc].
      unfold t2, email_taken. cbn [t_rows]. rewrite existsb_app.
      cbn [existsb u_email]. rewrite String.eqb_refl. apply orb_true_r.
Qed.

Lemma script_succeeds_iff_emails_are_free_witness :
  ((exists rows, (script None).2 = Done rows) <->
   forall r, r ∈ t_rows (create_table_if_not_exists None) ->
     u_email r <> Some "ccarlos@example.com" /\
     u_email r <> Some "aana@example.com") /\
  ((exists e, (script None).2 = Failed e) ->
   (script None).2 =
     Failed (IntegrityError "UNIQUE constraint failed: usuarios.email")).
Proof.
  apply (script_succeeds_iff_emails_are_free None). vm_compute. discriminate.
Defined.

End UsuariosFacts.

(* ================================================================== *)
(** * The script of src/postgres.py *)
(* ================================================================== *)

Section PostgresFacts.
Import Postgres.

(** The script of postgres.py never writes to [projects2], the table it
    creates: after a run it holds what it held before (nothing when it
    is new).  When the database has no table [projects], the run ends
    on UndefinedTable in [insert_projects], after the first message
    only. *)
Theorem script_never_writes_to_projects2
  (relation : Type)
  (insert_into : relation -> list (string * string * string) -> outcome relation)
  (select_from : relation -> outcome (list string))
  (d : database relation) :
  projects2 relation (script relation insert_into select_from d).1.1
  = Some (default [] (projects2 relation d)) /\
  (projects relation d = None ->
   script relation insert_into select_from d
   = (mkDb relation (Some (default [] (projects2 relation d))) None,
      ["✅ Tabla 'projects' creada o ya existente."],
      Failed (UndefinedTable "projects"))).
Proof.
  unfold script, create_table, insert_projects, get_projects.
  cbn [projects projects2]. split.
  - destruct (projects relation d) as [r|]; [|by destruct (projects2 relation d)].
    destruct (insert_into r data) as [r'|e]; cbn [projects].
    + destruct (select_from r'); by destruct (projects2 relation d).
    + by destruct (projects2 relation d).
  - intros ->. by destruct (projects2 relation d).
Qed.

End PostgresFacts.
